(** * Daemon configuration of the nydus snapshotter

    A shallow embedding of [config/daemonconfig/daemonconfig.go]:
    the reflective secret filter [serializeWithSecretFilter] and the
    supplementation routine [SupplementDaemonConfig], with the
    properties the design document states about them. *)

From Stdlib Require Import ZArith Ascii.
From stdpp Require Import gmap strings list fin_maps.

Open Scope string_scope.
Open Scope list_scope.

Set Warnings "-register-all".

(** ** Go values as [reflect] sees them *)

(** The kinds of Go types that occur in the configuration structs,
    together with pointers and interfaces, which the filter treats
    specially. *)
Module reflect.
Inductive Kind :=
| Bool | Int | Uint8 | String | Slice | Map | Ptr | Interface | Struct.
End reflect.

Global Instance Kind_eq_dec : EqDecision reflect.Kind.
Proof. solve_decision. Defined.

(** [reflect.StructTag]: the list of [key:"value"] pairs of a field. *)
Definition StructTag := list (string * string).

(** [reflect.StructField] without its type, which the field's value
    carries.  [Exported] is [StructField.IsExported ()]. *)
Record StructField := mkField {
  Name : string;
  Exported : bool;
  Tag : StructTag
}.

(** Go types.  A struct type lists its fields in declaration order. *)
Inductive GoType :=
| TBool | TInt | TUint8 | TString
| TSlice (elem : GoType)
| TMap (key elem : GoType)
| TPtr (elem : GoType)
| TInterface
| TStruct (fields : list (StructField * GoType)).

(** Go values, each carrying what is needed to recover its type.  A
    slice, a map, a pointer and an interface can be nil ([None]). *)
Inductive Value :=
| VBool (b : bool)
| VInt (n : Z)
| VUint8 (n : Z)
| VString (s : string)
| VSlice (elem : GoType) (xs : option (list Value))
| VMap (key elem : GoType) (kvs : option (list (Value * Value)))
| VPtr (elem : GoType) (p : option Value)
| VInterface (dyn : option Value)
| VStruct (fields : list (StructField * Value)).

(** [reflect.TypeOf] / [Value.Type]. *)
Fixpoint TypeOf (v : Value) : GoType :=
  match v with
  | VBool _ => TBool
  | VInt _ => TInt
  | VUint8 _ => TUint8
  | VString _ => TString
  | VSlice t _ => TSlice t
  | VMap k t _ => TMap k t
  | VPtr t _ => TPtr t
  | VInterface _ => TInterface
  | VStruct fs => TStruct (map (fun fv => (fst fv, TypeOf (snd fv))) fs)
  end.

(** [Type.Kind]. *)
Definition KindOfType (t : GoType) : reflect.Kind :=
  match t with
  | TBool => reflect.Bool
  | TInt => reflect.Int
  | TUint8 => reflect.Uint8
  | TString => reflect.String
  | TSlice _ => reflect.Slice
  | TMap _ _ => reflect.Map
  | TPtr _ => reflect.Ptr
  | TInterface => reflect.Interface
  | TStruct _ => reflect.Struct
  end.

(** [Value.Kind]. *)
Definition KindOf (v : Value) : reflect.Kind := KindOfType (TypeOf v).

(** [Value.IsNil] on the kinds that have a nil. *)
Definition IsNil (v : Value) : bool :=
  match v with
  | VSlice _ None | VMap _ _ None | VPtr _ None | VInterface None => true
  | _ => false
  end.

(** [reflect.Zero]: the zero value of a type. *)
Fixpoint Zero (t : GoType) : Value :=
  match t with
  | TBool => VBool false
  | TInt => VInt 0
  | TUint8 => VUint8 0
  | TString => VString ""
  | TSlice e => VSlice e None
  | TMap k e => VMap k e None
  | TPtr e => VPtr e None
  | TInterface => VInterface None
  | TStruct fs => VStruct (map (fun ft => (fst ft, Zero (snd ft))) fs)
  end.

(** [Value.Interface]: the value as an [interface{}].  An
    [interface{}] is modelled by the value it holds, [VInterface None]
    when it is nil: a field of interface kind yields what it holds. *)
Definition Interface (v : Value) : Value :=
  match v with
  | VInterface (Some dyn) => dyn
  | _ => v
  end.

(** ** Equality of types and [reflect.DeepEqual] *)

Definition StructField_eqb (f g : StructField) : bool :=
  bool_decide (Name f = Name g) && bool_decide (Exported f = Exported g)
  && bool_decide (Tag f = Tag g).

Fixpoint GoType_eqb (t u : GoType) : bool :=
  match t, u with
  | TBool, TBool | TInt, TInt | TUint8, TUint8 | TString, TString
  | TInterface, TInterface => true
  | TSlice a, TSlice b | TPtr a, TPtr b => GoType_eqb a b
  | TMap k a, TMap l b => GoType_eqb k l && GoType_eqb a b
  | TStruct fs, TStruct gs =>
      (fix fields_eqb (fs gs : list (StructField * GoType)) : bool :=
         match fs, gs with
         | [], [] => true
         | (f, a) :: fs', (g, b) :: gs' =>
             StructField_eqb f g && GoType_eqb a b && fields_eqb fs' gs'
         | _, _ => false
         end) fs gs
  | _, _ => false
  end.

(** [deepValueEqual] of package [reflect], on values without cycles.
    Pointers have no address here, so two pointers are compared by
    what they point to; map keys are looked up with the same
    comparison. *)
Fixpoint deepValueEqual (v1 v2 : Value) : bool :=
  GoType_eqb (TypeOf v1) (TypeOf v2) &&
  match v1, v2 with
  | VBool a, VBool b => bool_decide (a = b)
  | VInt a, VInt b | VUint8 a, VUint8 b => bool_decide (a = b)
  | VString a, VString b => bool_decide (a = b)
  | VSlice _ None, VSlice _ None => true
  | VSlice _ (Some xs), VSlice _ (Some ys) =>
      (fix elems (xs ys : list Value) : bool :=
         match xs, ys with
         | [], [] => true
         | x :: xs', y :: ys' => deepValueEqual x y && elems xs' ys'
         | _, _ => false
         end) xs ys
  | VMap _ _ None, VMap _ _ None => true
  | VMap _ _ (Some kvs1), VMap _ _ (Some kvs2) =>
      bool_decide (length kvs1 = length kvs2) &&
      (fix entries (kvs : list (Value * Value)) : bool :=
         match kvs with
         | [] => true
         | (k, x) :: kvs' =>
             match
               (fix MapIndex (kvs2 : list (Value * Value)) : option Value :=
                  match kvs2 with
                  | [] => None
                  | (k', y) :: kvs2' =>
                      if deepValueEqual k k' then Some y else MapIndex kvs2'
                  end) kvs2
             with
             | Some y => deepValueEqual x y
             | None => false
             end && entries kvs'
         end) kvs1
  | VPtr _ None, VPtr _ None => true
  | VPtr _ (Some p), VPtr _ (Some q) => deepValueEqual p q
  | VInterface None, VInterface None => true
  | VInterface (Some p), VInterface (Some q) => deepValueEqual p q
  | VStruct fs, VStruct gs =>
      (fix fields (fs gs : list (StructField * Value)) : bool :=
         match fs, gs with
         | [], [] => true
         | (_, x) :: fs', (_, y) :: gs' => deepValueEqual x y && fields fs' gs'
         | _, _ => false
         end) fs gs
  | _, _ => false
  end.

(** [reflect.DeepEqual] on two [interface{}] values. *)
Definition DeepEqual (x y : Value) : bool :=
  match x, y with
  | VInterface None, VInterface None => true
  | VInterface None, _ | _, VInterface None => false
  | _, _ => deepValueEqual x y
  end.

(** ** Struct tags *)

(** [StructTag.Get]: the value of the first pair with that key, the
    empty string when there is none. *)
Fixpoint Get (tag : StructTag) (key : string) : string :=
  match tag with
  | [] => ""
  | (k, v) :: tag' => if decide (k = key) then v else Get tag' key
  end.

(** [strings.Split] for a separator of one byte. *)
Fixpoint Split (s : string) (sep : Ascii.ascii) : list string :=
  match s with
  | EmptyString => [""]
  | String c s' =>
      if decide (c = sep) then "" :: Split s' sep
      else match Split s' sep with
           | [] => [String c ""]
           | w :: ws => String c w :: ws
           end
  end.

(** ** The result of the filter *)

(** The [interface{}] values stored in the result map: a field's
    value as it is, or the map of a nested struct. *)
Inductive Any :=
| AValue (v : Value)
| AMap (m : gmap string Any).

(** ** The secret filter *)

Section FieldLoop.
(** The recursive call of the filter. *)
Variable serialize : Value → option (gmap string Any).

(** [Value.CanInterface], for the value of the field [f] of a struct
    that was itself obtained from an [interface{}]: whether the
    field is exported. *)
Definition CanInterface (f : StructField) : bool := Exported f.

(** The check that [field.Interface ()] makes before it returns
    [Interface field]: a panic ([None]) on a field that is not
    exported. *)
Definition checkInterface (f : StructField) : option unit :=
  if CanInterface f then Some () else None.

(** One turn of the loop over the fields, from the map built so far
    to the map after the field; [None] is a panic. *)
Definition field_step (result : gmap string Any)
    (fv : StructField * Value) : option (gmap string Any) :=
  let '(fieldType, field) := fv in
  let secretTag := Get (Tag fieldType) "secret" in
  let jsonTags := Split (Get (Tag fieldType) "json") "," in
  let omitemptyTag := bool_decide ("omitempty" ∈ jsonTags) in
  if decide (secretTag = "true") then Some result
  else if bool_decide (KindOf field = reflect.Ptr) && IsNil field
  then Some result
  else
    skip ← (if omitemptyTag
            then checkInterface fieldType;;
                 Some (DeepEqual (Interface (Zero (TypeOf field)))
                                 (Interface field))
            else Some false);
    if skip : bool then Some result
    else
      key ← jsonTags !! 0%nat;
      match KindOf field with
      | reflect.Struct =>
          checkInterface fieldType;;
          m ← serialize (Interface field);
          Some (<[key := AMap m]> result)
      | reflect.Ptr =>
          match field with
          | VPtr _ (Some elem) =>
              checkInterface fieldType;;
              m ← serialize (Interface elem);
              Some (<[key := AMap m]> result)
          | _ => None
          end
      | _ =>
          checkInterface fieldType;;
          Some (<[key := AValue (Interface field)]> result)
      end.

(** The loop [for i := 0; i < value.NumField (); i++]. *)
Fixpoint fields_loop (result : gmap string Any)
    (fields : list (StructField * Value)) : option (gmap string Any) :=
  match fields with
  | [] => Some result
  | fv :: fields' =>
      result' ← field_step result fv;
      fields_loop result' fields'
  end.
End FieldLoop.

(** [serializeWithSecretFilter]: a pointer is followed once, and
    [value.NumField ()] panics on anything but a struct. *)
Fixpoint serializeWithSecretFilter (obj : Value) : option (gmap string Any) :=
  match obj with
  | VStruct fields | VPtr _ (Some (VStruct fields)) =>
      fields_loop serializeWithSecretFilter ∅ fields
  | _ => None
  end.

(** ** The configuration structs *)

(** A field of a configuration struct: exported, with its [json] tag
    and, for a credential, the tag [secret:"true"]. *)
Definition jsonField (name json : string) : StructField :=
  mkField name true [("json", json)].

Definition secretField (name json : string) : StructField :=
  mkField name true [("json", json); ("secret", "true")].

Definition VStrings (kvs : option (list (string * string))) : Value :=
  VMap TString TString
       (map (fun kv => (VString (fst kv), VString (snd kv))) <$> kvs).

Record MirrorConfig := {
  mirror_Host : string;
  mirror_Headers : option (list (string * string));
  mirror_HealthCheckInterval : Z;
  mirror_FailureLimit : Z;
  mirror_PingURL : string
}.

Definition MirrorConfig_value (c : MirrorConfig) : Value :=
  VStruct [
    (jsonField "Host" "host,omitempty", VString (mirror_Host c));
    (jsonField "Headers" "headers,omitempty", VStrings (mirror_Headers c));
    (jsonField "HealthCheckInterval" "health_check_interval,omitempty",
       VInt (mirror_HealthCheckInterval c));
    (jsonField "FailureLimit" "failure_limit,omitempty",
       VUint8 (mirror_FailureLimit c));
    (jsonField "PingURL" "ping_url,omitempty", VString (mirror_PingURL c))
  ].

Definition MirrorConfig_type : GoType :=
  Eval cbv in TypeOf (MirrorConfig_value
    {| mirror_Host := ""; mirror_Headers := None;
       mirror_HealthCheckInterval := 0; mirror_FailureLimit := 0;
       mirror_PingURL := "" |}).

Record ProxyConfig := {
  proxy_URL : string;
  proxy_Fallback : bool;
  proxy_PingURL : string;
  proxy_CheckInterval : Z;
  proxy_UseHTTP : bool
}.

Definition ProxyConfig_value (p : ProxyConfig) : Value :=
  VStruct [
    (jsonField "URL" "url,omitempty", VString (proxy_URL p));
    (jsonField "Fallback" "fallback", VBool (proxy_Fallback p));
    (jsonField "PingURL" "ping_url,omitempty", VString (proxy_PingURL p));
    (jsonField "CheckInterval" "check_interval,omitempty",
       VInt (proxy_CheckInterval p));
    (jsonField "UseHTTP" "use_http,omitempty", VBool (proxy_UseHTTP p))
  ].

Record BackendConfig := {
  BlobFile : string;
  Dir : string;
  ReadAhead : bool;
  ReadAheadSec : Z;
  Host : string;
  Repo : string;
  Auth : string;
  RegistryToken : string;
  BlobURLScheme : string;
  BlobRedirectedHost : string;
  Mirrors : option (list MirrorConfig);
  EndPoint : string;
  AccessKeyID : string;
  AccessKeySecret : string;
  BucketName : string;
  ObjectPrefix : string;
  Scheme : string;
  SkipVerify : bool;
  Proxy : ProxyConfig;
  Timeout : Z;
  ConnectTimeout : Z;
  RetryLimit : Z
}.

Definition BackendConfig_value (c : BackendConfig) : Value :=
  VStruct [
    (jsonField "BlobFile" "blob_file,omitempty", VString (BlobFile c));
    (jsonField "Dir" "dir,omitempty", VString (Dir c));
    (jsonField "ReadAhead" "readahead", VBool (ReadAhead c));
    (jsonField "ReadAheadSec" "readahead_sec,omitempty", VInt (ReadAheadSec c));
    (jsonField "Host" "host,omitempty", VString (Host c));
    (jsonField "Repo" "repo,omitempty", VString (Repo c));
    (secretField "Auth" "auth,omitempty", VString (Auth c));
    (secretField "RegistryToken" "registry_token,omitempty",
       VString (RegistryToken c));
    (jsonField "BlobURLScheme" "blob_url_scheme,omitempty",
       VString (BlobURLScheme c));
    (jsonField "BlobRedirectedHost" "blob_redirected_host,omitempty",
       VString (BlobRedirectedHost c));
    (jsonField "Mirrors" "mirrors,omitempty",
       VSlice MirrorConfig_type (map MirrorConfig_value <$> Mirrors c));
    (jsonField "EndPoint" "endpoint,omitempty", VString (EndPoint c));
    (secretField "AccessKeyID" "access_key_id,omitempty",
       VString (AccessKeyID c));
    (secretField "AccessKeySecret" "access_key_secret,omitempty",
       VString (AccessKeySecret c));
    (jsonField "BucketName" "bucket_name,omitempty", VString (BucketName c));
    (jsonField "ObjectPrefix" "object_prefix,omitempty",
       VString (ObjectPrefix c));
    (jsonField "Scheme" "scheme,omitempty", VString (Scheme c));
    (jsonField "SkipVerify" "skip_verify,omitempty", VBool (SkipVerify c));
    (jsonField "Proxy" "proxy,omitempty", ProxyConfig_value (Proxy c));
    (jsonField "Timeout" "timeout,omitempty", VInt (Timeout c));
    (jsonField "ConnectTimeout" "connect_timeout,omitempty",
       VInt (ConnectTimeout c));
    (jsonField "RetryLimit" "retry_limit,omitempty", VInt (RetryLimit c))
  ].

Record CacheConfig := {
  CacheType : string;
  Compressed : bool;
  WorkDir : string;
  DisableIndexedMap : bool
}.

Record DeviceConfig := {
  BackendType : string;
  Config : BackendConfig;
  Cache : CacheConfig
}.

Definition DeviceConfig_value (d : DeviceConfig) : Value :=
  VStruct [
    (jsonField "Backend" "backend",
       VStruct [
         (jsonField "BackendType" "type", VString (BackendType d));
         (jsonField "Config" "config", BackendConfig_value (Config d))
       ]);
    (jsonField "Cache" "cache",
       VStruct [
         (jsonField "CacheType" "type", VString (CacheType (Cache d)));
         (jsonField "Compressed" "compressed,omitempty",
            VBool (Compressed (Cache d)));
         (jsonField "Config" "config",
            VStruct [
              (jsonField "WorkDir" "work_dir", VString (WorkDir (Cache d)));
              (jsonField "DisableIndexedMap" "disable_indexed_map",
                 VBool (DisableIndexedMap (Cache d)))
            ])
       ])
  ].

Definition emptyProxy : ProxyConfig :=
  {| proxy_URL := ""; proxy_Fallback := false; proxy_PingURL := "";
     proxy_CheckInterval := 0; proxy_UseHTTP := false |}.

(** The zero value [BackendConfig{}]. *)
Definition emptyBackend : BackendConfig :=
  {| BlobFile := ""; Dir := ""; ReadAhead := false; ReadAheadSec := 0;
     Host := ""; Repo := ""; Auth := ""; RegistryToken := "";
     BlobURLScheme := ""; BlobRedirectedHost := ""; Mirrors := None;
     EndPoint := ""; AccessKeyID := ""; AccessKeySecret := "";
     BucketName := ""; ObjectPrefix := ""; Scheme := ""; SkipVerify := false;
     Proxy := emptyProxy; Timeout := 0; ConnectTimeout := 0;
     RetryLimit := 0 |}.

(** The type [BackendConfig] as [reflect] sees it. *)
Definition BackendConfig_type : GoType :=
  Eval cbv in TypeOf (BackendConfig_value emptyBackend).

Definition scenarioBackend : BackendConfig :=
  {| BlobFile := ""; Dir := ""; ReadAhead := false; ReadAheadSec := 0;
     Host := "example.com"; Repo := ""; Auth := "token-abc"; RegistryToken := "";
     BlobURLScheme := ""; BlobRedirectedHost := ""; Mirrors := None;
     EndPoint := ""; AccessKeyID := ""; AccessKeySecret := "";
     BucketName := ""; ObjectPrefix := ""; Scheme := ""; SkipVerify := false;
     Proxy := emptyProxy; Timeout := 0; ConnectTimeout := 0;
     RetryLimit := 0 |}.

(** ** How the loop treats one field *)

(** The key of a field's entry: [jsonTags[0]]. *)
Definition jsonKey (f : StructField) : string :=
  hd "" (Split (Get (Tag f) "json") ",").

Definition isSecret (f : StructField) : bool :=
  bool_decide (Get (Tag f) "secret" = "true").

Definition hasOmitempty (f : StructField) : bool :=
  bool_decide ("omitempty" ∈ Split (Get (Tag f) "json") ",").

Definition isNilPtr (v : Value) : bool :=
  bool_decide (KindOf v = reflect.Ptr) && IsNil v.

(** The test of line 216 on a field's value. *)
Definition equalsZero (v : Value) : bool :=
  DeepEqual (Interface (Zero (TypeOf v))) (Interface v).

(** A field that gets an entry, when the loop does not panic on it. *)
Definition rendered (fv : StructField * Value) : bool :=
  negb (isSecret fv.1) && negb (isNilPtr fv.2)
  && negb (hasOmitempty fv.1 && equalsZero fv.2).

(** The value stored for a field that gets an entry. *)
Definition render (serialize : Value → option (gmap string Any))
    (v : Value) : option Any :=
  match v with
  | VStruct _ => AMap <$> serialize v
  | VPtr _ (Some elem) => AMap <$> serialize (Interface elem)
  | VPtr _ None => None
  | _ => Some (AValue (Interface v))
  end.

(** ** What a redacted map may contain *)

(** The struct whose fields a call of the filter walks. *)
Definition structOf (obj : Value) : option (list (StructField * Value)) :=
  match obj with
  | VStruct fields | VPtr _ (Some (VStruct fields)) => Some fields
  | _ => None
  end.

(** [Redacted obj m]: every entry of [m] belongs to a field of [obj]
    that is not tagged [secret:"true"], and so do the entries of the
    maps nested in [m], at every depth. *)
Inductive Redacted : Value → gmap string Any → Prop :=
| Redacted_fields obj fields m :
    structOf obj = Some fields →
    (∀ k a, m !! k = Some a →
       ∃ fv, fv ∈ fields ∧ Get (Tag fv.1) "secret" ≠ "true"
             ∧ jsonKey fv.1 = k ∧ RedactedEntry fv.2 a) →
    Redacted obj m
with RedactedEntry : Value → Any → Prop :=
| RedactedEntry_value v :
    KindOf v ≠ reflect.Struct → KindOf v ≠ reflect.Ptr →
    RedactedEntry v (AValue (Interface v))
| RedactedEntry_struct v m :
    KindOf v = reflect.Struct → Redacted v m → RedactedEntry v (AMap m)
| RedactedEntry_ptr t elem m :
    Redacted (Interface elem) m → RedactedEntry (VPtr t (Some elem)) (AMap m).

(** ** Induction on values and on types *)

Section ValueInduction.
Variable P : Value → Prop.
Hypothesis HBool : ∀ b, P (VBool b).
Hypothesis HInt : ∀ n, P (VInt n).
Hypothesis HUint8 : ∀ n, P (VUint8 n).
Hypothesis HString : ∀ s, P (VString s).
Hypothesis HSliceNil : ∀ t, P (VSlice t None).
Hypothesis HSlice : ∀ t xs, Forall P xs → P (VSlice t (Some xs)).
Hypothesis HMapNil : ∀ k t, P (VMap k t None).
Hypothesis HMap : ∀ k t kvs,
  Forall (λ kv, P kv.1 ∧ P kv.2) kvs → P (VMap k t (Some kvs)).
Hypothesis HPtrNil : ∀ t, P (VPtr t None).
Hypothesis HPtr : ∀ t p, P p → P (VPtr t (Some p)).
Hypothesis HInterfaceNil : P (VInterface None).
Hypothesis HInterface : ∀ d, P d → P (VInterface (Some d)).
Hypothesis HStruct : ∀ fs, Forall (λ fv, P fv.2) fs → P (VStruct fs).

Fixpoint Value_nested_ind (v : Value) : P v :=
  match v with
  | VBool b => HBool b
  | VInt n => HInt n
  | VUint8 n => HUint8 n
  | VString s => HString s
  | VSlice t None => HSliceNil t
  | VSlice t (Some xs) =>
      HSlice t xs
        ((fix go (xs : list Value) : Forall P xs :=
            match xs with
            | [] => Forall_nil_2 P
            | x :: xs' => Forall_cons_2 P x xs' (Value_nested_ind x) (go xs')
            end) xs)
  | VMap k t None => HMapNil k t
  | VMap k t (Some kvs) =>
      HMap k t kvs
        ((fix go (kvs : list (Value * Value))
            : Forall (λ kv, P kv.1 ∧ P kv.2) kvs :=
            match kvs with
            | [] => Forall_nil_2 _
            | (a, b) :: kvs' =>
                Forall_cons_2 (λ kv, P kv.1 ∧ P kv.2) (a, b) kvs'
                  (conj (Value_nested_ind a) (Value_nested_ind b)) (go kvs')
            end) kvs)
  | VPtr t None => HPtrNil t
  | VPtr t (Some p) => HPtr t p (Value_nested_ind p)
  | VInterface None => HInterfaceNil
  | VInterface (Some d) => HInterface d (Value_nested_ind d)
  | VStruct fs =>
      HStruct fs
        ((fix go (fs : list (StructField * Value))
            : Forall (λ fv, P fv.2) fs :=
            match fs with
            | [] => Forall_nil_2 _
            | (f, x) :: fs' =>
                Forall_cons_2 (λ fv, P fv.2) (f, x) fs'
                  (Value_nested_ind x) (go fs')
            end) fs)
  end.
End ValueInduction.

Section TypeInduction.
Variable P : GoType → Prop.
Hypothesis HBool : P TBool.
Hypothesis HInt : P TInt.
Hypothesis HUint8 : P TUint8.
Hypothesis HString : P TString.
Hypothesis HSlice : ∀ t, P t → P (TSlice t).
Hypothesis HMap : ∀ k t, P k → P t → P (TMap k t).
Hypothesis HPtr : ∀ t, P t → P (TPtr t).
Hypothesis HInterface : P TInterface.
Hypothesis HStruct : ∀ fs, Forall (λ ft, P ft.2) fs → P (TStruct fs).

Fixpoint GoType_nested_ind (t : GoType) : P t :=
  match t with
  | TBool => HBool
  | TInt => HInt
  | TUint8 => HUint8
  | TString => HString
  | TSlice e => HSlice e (GoType_nested_ind e)
  | TMap k e => HMap k e (GoType_nested_ind k) (GoType_nested_ind e)
  | TPtr e => HPtr e (GoType_nested_ind e)
  | TInterface => HInterface
  | TStruct fs =>
      HStruct fs
        ((fix go (fs : list (StructField * GoType))
            : Forall (λ ft, P ft.2) fs :=
            match fs with
            | [] => Forall_nil_2 _
            | (f, x) :: fs' =>
                Forall_cons_2 (λ ft, P ft.2) (f, x) fs'
                  (GoType_nested_ind x) (go fs')
            end) fs)
  end.
End TypeInduction.

(** * Supplementing a daemon configuration *)

Definition StorageBackendType := string.
Definition backendTypeLocalfs : StorageBackendType := "localfs".
Definition backendTypeOss : StorageBackendType := "oss".
Definition backendTypeRegistry : StorageBackendType := "registry".

(** Go errors as package [errors] builds them. *)
Inductive error :=
| Errorf (msg : string)
| Wrap (cause : error) (msg : string).

(** The method [Error] of an error. *)
Fixpoint Error (e : error) : string :=
  match e with
  | Errorf msg => msg
  | Wrap cause msg => msg +:+ ": " +:+ Error cause
  end.

Module registry.
(** What [registry.ParseImage] returns. *)
Record Image := { Host : string; Repo : string }.
End registry.

(** The values behind a [SupplementInfoInterface]. *)
Record SupplementInfoInterface := {
  GetImageID : string;
  GetSnapshotID : string;
  IsVPCRegistry : bool;
  GetLabels : gmap string string;
  GetParams : gmap string string
}.

(** The interface [DaemonConfig] over the state [C] of a variant; a
    method that mutates its receiver returns the new state.
    [KeyChain] is [*auth.PassKeyChain]. *)
Class DaemonConfig (KeyChain C : Type) := {
  Supplement : C → string → string → string → gmap string string → C;
  FillAuth : C → KeyChain → C;
  StorageBackend : C → StorageBackendType * option BackendConfig;
  UpdateMirrors : C → string → string → C * option error;
  DumpString : C → string * option error
}.

(** The calls a run makes, in order. *)
Inductive Event {KeyChain : Type} :=
| EvLock
| EvUnlock
| EvParseImage (imageID : string)
| EvStorageBackend
| EvConvertToVPCHost (host : string)
| EvUpdateMirrors (mirrorsConfigDir registryHost : string)
| EvGetRegistryKeyChain (host imageID : string) (labels : gmap string string)
| EvSupplement (host repo snapshotID : string) (params : gmap string string)
| EvFillAuth (kc : KeyChain).
Arguments Event : clear implicits.

(** What a run acts on: the mutex [configRWMutex] (held or not), the
    variant behind [c], and the calls made so far. *)
Record World (KeyChain C : Type) := mkWorld {
  configRWMutex : bool;
  variant : C;
  calls : list (Event KeyChain)
}.
Arguments mkWorld {_ _}.
Arguments configRWMutex {_ _}.
Arguments variant {_ _}.
Arguments calls {_ _}.

(** A piece of code acting on a world; [None] when it never returns
    (a [Lock] on a mutex that is held, an [Unlock] on one that is
    not). *)
Definition Proc (W A : Type) : Type := W → option (A * W).

Global Instance Proc_ret {W} : MRet (Proc W) := λ A a w, Some (a, w).
Global Instance Proc_bind {W} : MBind (Proc W) := λ A B f m w,
  match m w with
  | Some (a, w') => f a w'
  | None => None
  end.

Section Supplementer.
Context {KeyChain C : Type} {methods : DaemonConfig KeyChain C}.

(** The collaborators, which are not part of this package. *)
Variable ParseImage : string → registry.Image + error.
Variable ConvertToVPCHost : string → string.
Variable GetMirrorsConfigDir : string.
Variable GetRegistryKeyChain :
  string → string → gmap string string → KeyChain.

Local Abbreviation W := (World KeyChain C).

Definition record (e : Event KeyChain) : Proc W unit := λ w,
  Some ((), mkWorld (configRWMutex w) (variant w) (calls w ++ [e])).

(** [configRWMutex.Lock ()] *)
Definition Lock : Proc W unit := λ w,
  if configRWMutex w then None
  else Some ((), mkWorld true (variant w) (calls w ++ [EvLock])).

(** [configRWMutex.Unlock ()] *)
Definition Unlock : Proc W unit := λ w,
  if configRWMutex w
  then Some ((), mkWorld false (variant w) (calls w ++ [EvUnlock]))
  else None.

(** A method of [c] that reads the variant. *)
Definition read {A} (f : C → A) : Proc W A := λ w, Some (f (variant w), w).

(** A method of [c] that mutates the variant. *)
Definition mutate {A} (f : C → C * A) : Proc W A := λ w,
  let '(c', a) := f (variant w) in
  Some (a, mkWorld (configRWMutex w) c' (calls w)).

(** Lines 145 to 181: the body that runs with the mutex held; the
    result is the error returned, [None] for [nil]. *)
Definition SupplementDaemonConfig_body (info : SupplementInfoInterface)
    : Proc W (option error) :=
  record (EvParseImage (GetImageID info));;
  match ParseImage (GetImageID info) with
  | inr err =>
      mret (Some (Wrap err ("parse image " +:+ GetImageID info)))
  | inl image =>
      record EvStorageBackend;;
      '(backendType, _) ← read StorageBackend;
      if decide (backendType = backendTypeRegistry) then
        registryHost ←
          (if IsVPCRegistry info then
             record (EvConvertToVPCHost (registry.Host image));;
             mret (ConvertToVPCHost (registry.Host image))
           else if decide (registry.Host image = "docker.io") then
             mret "index.docker.io"
           else mret (registry.Host image));
        record (EvUpdateMirrors GetMirrorsConfigDir registryHost);;
        err ← mutate (λ c, UpdateMirrors c GetMirrorsConfigDir registryHost);
        match err with
        | Some err => mret (Some (Wrap err "update mirrors config"))
        | None =>
            record (EvGetRegistryKeyChain registryHost (GetImageID info)
                      (GetLabels info));;
            let keyChain :=
              GetRegistryKeyChain registryHost (GetImageID info)
                (GetLabels info) in
            record (EvSupplement registryHost (registry.Repo image)
                      (GetSnapshotID info) (GetParams info));;
            mutate (λ c, (Supplement c registryHost (registry.Repo image)
                            (GetSnapshotID info) (GetParams info), ()));;
            record (EvFillAuth keyChain);;
            mutate (λ c, (FillAuth c keyChain, ()));;
            mret None
        end
      else if decide (backendType = backendTypeLocalfs) then mret None
      else if decide (backendType = backendTypeOss) then mret None
      else mret (Some (Errorf ("unknown backend type " +:+ backendType)))
  end.

(** [SupplementDaemonConfig]: the body between [Lock] and the
    deferred [Unlock]. *)
Definition SupplementDaemonConfig (info : SupplementInfoInterface)
    : Proc W (option error) :=
  Lock;;
  ret ← SupplementDaemonConfig_body info;
  Unlock;;
  mret ret.
(** The host the registry branch works with (lines 154 to 160). *)
Definition effectiveHost (info : SupplementInfoInterface)
    (image : registry.Image) : string :=
  if IsVPCRegistry info then ConvertToVPCHost (registry.Host image)
  else if decide (registry.Host image = "docker.io") then "index.docker.io"
  else registry.Host image.

(** The calls of the registry branch up to [UpdateMirrors]. *)
Definition callsToUpdateMirrors (info : SupplementInfoInterface)
    (image : registry.Image) : list (Event KeyChain) :=
  [EvLock; EvParseImage (GetImageID info); EvStorageBackend]
  ++ (if IsVPCRegistry info
      then [EvConvertToVPCHost (registry.Host image)] else [])
  ++ [EvUpdateMirrors GetMirrorsConfigDir (effectiveHost info image)].
End Supplementer.

(** ** A variant and collaborators to run the code on *)

Definition withRegistry (c : BackendConfig) (host repo auth : string)
    (mirrors : option (list MirrorConfig)) : BackendConfig :=
  {| BlobFile := BlobFile c; Dir := Dir c; ReadAhead := ReadAhead c;
     ReadAheadSec := ReadAheadSec c;
     Host := host; Repo := repo; Auth := auth;
     RegistryToken := RegistryToken c;
     BlobURLScheme := BlobURLScheme c;
     BlobRedirectedHost := BlobRedirectedHost c;
     Mirrors := mirrors;
     EndPoint := EndPoint c; AccessKeyID := AccessKeyID c;
     AccessKeySecret := AccessKeySecret c; BucketName := BucketName c;
     ObjectPrefix := ObjectPrefix c; Scheme := Scheme c;
     SkipVerify := SkipVerify c; Proxy := Proxy c; Timeout := Timeout c;
     ConnectTimeout := ConnectTimeout c; RetryLimit := RetryLimit c |}.

Definition withConfig (d : DeviceConfig) (c : BackendConfig) : DeviceConfig :=
  {| BackendType := BackendType d; Config := c; Cache := Cache d |}.

Section VariantModel.
(** The mirror definitions kept for a registry host in a directory:
    what reading the directory yields. *)
Variable LoadMirrorsConfig : string → string → list MirrorConfig + error.

(** Modelled from the spec: the types that implement [DaemonConfig]
    are not in the source.  A variant owns a [DeviceConfig].
    [Supplement] stores the host and the repository and validates
    nothing; [FillAuth] copies the material of the keychain into the
    auth field only when the keychain is not empty ([None] is the
    empty keychain); [StorageBackend] reads the backend kind and its
    configuration; [UpdateMirrors] replaces the mirror list by the
    definitions read for the host, and leaves the list as it was
    when reading fails; [DumpString] is left out of the model and
    returns the empty string. *)
Global Instance DeviceVariant : DaemonConfig (option string) DeviceConfig := {|
  Supplement d host repo _ _ :=
    withConfig d (withRegistry (Config d) host repo (Auth (Config d))
                               (Mirrors (Config d)));
  FillAuth d kc :=
    match kc with
    | Some material =>
        withConfig d (withRegistry (Config d) (Host (Config d))
                        (Repo (Config d)) material (Mirrors (Config d)))
    | None => d
    end;
  StorageBackend d := (BackendType d, Some (Config d));
  UpdateMirrors d mirrorsDir registryHost :=
    match LoadMirrorsConfig mirrorsDir registryHost with
    | inl mirrors =>
        (withConfig d (withRegistry (Config d) (Host (Config d))
                         (Repo (Config d)) (Auth (Config d)) (Some mirrors)),
         None)
    | inr err => (d, Some err)
    end;
  DumpString _ := ("", None)
|}.
End VariantModel.

(** Modelled from the spec: the image-reference parser
    [registry.ParseImage] is not in the source; it maps a string to a
    host and a repository and fails on malformed input.  Here the host
    is the text before the first slash, the repository the text after
    it up to the colon of the tag, and an identifier without a slash,
    or with an empty host or repository, is malformed. *)
Definition ParseImage_model (imageID : string) : registry.Image + error :=
  match Split imageID "/" with
  | host :: _ :: _ =>
      let rest :=
        String.substring (S (String.length host))
          (String.length imageID - S (String.length host)) imageID in
      let repo := hd "" (Split rest ":") in
      if decide (host = "") then inr (Errorf "invalid reference format")
      else if decide (repo = "") then inr (Errorf "invalid reference format")
      else inl {| registry.Host := host; registry.Repo := repo |}
  | _ => inr (Errorf "invalid reference format")
  end.

(** Modelled from the spec: the rewrite [registry.ConvertToVPCHost] is
    not in the source and the spec leaves the rule open; any
    deterministic function of the host does, here a suffix. *)
Definition ConvertToVPCHost_model (host : string) : string := host +:+ "-vpc".

(** Modelled from the spec: the keychain provider never fails and
    yields the empty keychain when it has no credential; here it has
    one for a single host. *)
Definition GetRegistryKeyChain_model (host imageID : string)
    (labels : gmap string string) : option string :=
  if decide (host = "index.docker.io") then Some "dG9rZW4=" else None.

(** Modelled from the spec: reading the mirror definitions of a host
    from the mirrors directory is not in the source; it yields a list
    of mirrors or fails when the directory is unreadable or malformed.
    Here there are definitions for every host but one, for which
    reading fails. *)
Definition LoadMirrorsConfig_model (dir host : string)
    : list MirrorConfig + error :=
  if decide (host = "unreadable.example.com")
  then inr (Errorf "read mirror configuration")
  else inl [{| mirror_Host := "mirror." +:+ host; mirror_Headers := None;
               mirror_HealthCheckInterval := 5; mirror_FailureLimit := 5;
               mirror_PingURL := "" |}].

Definition exampleDevice (kind : string) : DeviceConfig :=
  {| BackendType := kind; Config := emptyBackend;
     Cache := {| CacheType := "blobcache"; Compressed := false;
                 WorkDir := "/var/lib/nydus/cache";
                 DisableIndexedMap := false |} |}.

Definition exampleInfo (imageID : string) (vpc : bool)
    : SupplementInfoInterface :=
  {| GetImageID := imageID; GetSnapshotID := "42"; IsVPCRegistry := vpc;
     GetLabels := ∅; GetParams := ∅ |}.

(** A run on the model, from a world with the mutex free and no call
    made yet. *)
Definition runModel (d : DeviceConfig) (info : SupplementInfoInterface)
    : option (option error * World (option string) DeviceConfig) :=
  SupplementDaemonConfig (methods := DeviceVariant LoadMirrorsConfig_model)
    ParseImage_model ConvertToVPCHost_model
    "/etc/nydus/certs.d" GetRegistryKeyChain_model info (mkWorld false d []).

(** * Concurrent calls *)

(** Where a call of [SupplementDaemonConfig] stands: before [Lock],
    with the mutex held and the body to run, with the body done and
    the deferred [Unlock] to run, or returned. *)
Inductive Phase :=
| AtLock
| InBody
| AtUnlock (ret : option error)
| Returned (ret : option error).

(** A call in progress: the address of the variant passed as [c], the
    [info] passed, and where the call stands. *)
Record Thread := mkThread {
  target : nat;
  request : SupplementInfoInterface;
  phase : Phase
}.

(** What the calls share: the mutex, the variants by address, and the
    calls made so far. *)
Record Shared (KeyChain C : Type) := mkShared {
  mutex : bool;
  heap : gmap nat C;
  history : list (Event KeyChain)
}.
Arguments mkShared {_ _}.
Arguments mutex {_ _}.
Arguments heap {_ _}.
Arguments history {_ _}.

(** Two calls running side by side. *)
Record System (KeyChain C : Type) := mkSystem {
  first : Thread;
  second : Thread;
  shared : Shared KeyChain C
}.
Arguments mkSystem {_ _}.
Arguments first {_ _}.
Arguments second {_ _}.
Arguments shared {_ _}.

Definition finished {KeyChain C : Type} (σ : System KeyChain C) : Prop :=
  (∃ ret, phase (first σ) = Returned ret)
  ∧ (∃ ret, phase (second σ) = Returned ret).

(** The steps a call has left. *)
Definition stepsLeft (p : Phase) : nat :=
  match p with
  | AtLock => 3
  | InBody => 2
  | AtUnlock _ => 1
  | Returned _ => 0
  end.

(** A phase in which the call holds the mutex. *)
Definition holdsMutex (p : Phase) : bool :=
  match p with
  | InBody | AtUnlock _ => true
  | AtLock | Returned _ => false
  end.

Section Threads.
Context {KeyChain C : Type} {methods : DaemonConfig KeyChain C}.
Variable ParseImage : string → registry.Image + error.
Variable ConvertToVPCHost : string → string.
Variable GetMirrorsConfigDir : string.
Variable GetRegistryKeyChain :
  string → string → gmap string string → KeyChain.

Local Abbreviation body :=
  (SupplementDaemonConfig_body ParseImage ConvertToVPCHost
     GetMirrorsConfigDir GetRegistryKeyChain).

(** The world a call sees: the shared mutex and history, and its own
    variant. *)
Definition worldOf (s : Shared KeyChain C) (c : C) : World KeyChain C :=
  mkWorld (mutex s) c (history s).

Definition sharedOf (s : Shared KeyChain C) (a : nat)
    (w : World KeyChain C) : Shared KeyChain C :=
  mkShared (configRWMutex w) (<[a := variant w]> (heap s)) (calls w).

(** One step of a call: [Lock], which cannot be taken while the
    mutex is held, then the body, then [Unlock]. *)
Definition step_thread (t : Thread) (s : Shared KeyChain C)
    : option (Thread * Shared KeyChain C) :=
  c ← heap s !! target t;
  match phase t with
  | AtLock =>
      '(_, w) ← Lock (worldOf s c);
      Some (mkThread (target t) (request t) InBody, sharedOf s (target t) w)
  | InBody =>
      '(ret, w) ← body (request t) (worldOf s c);
      Some (mkThread (target t) (request t) (AtUnlock ret),
            sharedOf s (target t) w)
  | AtUnlock ret =>
      '(_, w) ← Unlock (worldOf s c);
      Some (mkThread (target t) (request t) (Returned ret),
            sharedOf s (target t) w)
  | Returned _ => None
  end.

(** A step of the system is a step of either call. *)
Inductive step : System KeyChain C → System KeyChain C → Prop :=
| step_first σ t s :
    step_thread (first σ) (shared σ) = Some (t, s) →
    step σ (mkSystem t (second σ) s)
| step_second σ t s :
    step_thread (second σ) (shared σ) = Some (t, s) →
    step σ (mkSystem (first σ) t s).

(** What the body returns and leaves in the variant, run alone. *)
Definition outcome (info : SupplementInfoInterface) (c : C)
    : option error * C :=
  match body info (mkWorld true c []) with
  | Some (ret, w) => (ret, variant w)
  | None => (None, c)
  end.

(** The calls the body makes, run alone. *)
Definition bodyCalls (info : SupplementInfoInterface) (c : C)
    : list (Event KeyChain) :=
  match body info (mkWorld true c []) with
  | Some (_, w) => calls w
  | None => []
  end.
(** What the heap holds for a call, by its phase. *)
Definition cellInv (a : nat) (info : SupplementInfoInterface) (c : C)
    (p : Phase) (h : gmap nat C) : Prop :=
  match p with
  | AtLock | InBody => h !! a = Some c
  | AtUnlock ret | Returned ret =>
      ret = (outcome info c).1 ∧ h !! a = Some (outcome info c).2
  end.

(** What holds of two calls, on the variants [c1] at [a1] and [c2] at
    [a2] of the heap [h0], in every state they reach. *)
Definition Inv (a1 a2 : nat) (info1 info2 : SupplementInfoInterface)
    (c1 c2 : C) (h0 : gmap nat C) (σ : System KeyChain C) : Prop :=
  target (first σ) = a1 ∧ request (first σ) = info1
  ∧ target (second σ) = a2 ∧ request (second σ) = info2
  ∧ cellInv a1 info1 c1 (phase (first σ)) (heap (shared σ))
  ∧ cellInv a2 info2 c2 (phase (second σ)) (heap (shared σ))
  ∧ mutex (shared σ)
    = holdsMutex (phase (first σ)) || holdsMutex (phase (second σ))
  ∧ holdsMutex (phase (first σ)) && holdsMutex (phase (second σ)) = false
  ∧ ∀ a, a ≠ a1 → a ≠ a2 → heap (shared σ) !! a = h0 !! a.

(** The calls a call has made when it stands at a phase. *)
Definition callsUpTo (info : SupplementInfoInterface) (c : C) (p : Phase)
    : list (Event KeyChain) :=
  match p with
  | AtLock => []
  | InBody => [EvLock]
  | AtUnlock _ => EvLock :: bodyCalls info c
  | Returned _ => EvLock :: bodyCalls info c ++ [EvUnlock]
  end.

(** The history of two calls: the calls of one, then the calls of the
    other, which has not started before the one has returned. *)
Definition serialHistory (tr : list (Event KeyChain))
    (info1 info2 : SupplementInfoInterface) (c1 c2 : C)
    (σ : System KeyChain C) : Prop :=
  (history (shared σ)
   = tr ++ callsUpTo info1 c1 (phase (first σ))
        ++ callsUpTo info2 c2 (phase (second σ))
   ∧ ((∃ ret, phase (first σ) = Returned ret) ∨ phase (second σ) = AtLock))
  ∨ (history (shared σ)
     = tr ++ callsUpTo info2 c2 (phase (second σ))
          ++ callsUpTo info1 c1 (phase (first σ))
     ∧ ((∃ ret, phase (second σ) = Returned ret) ∨ phase (first σ) = AtLock)).
End Threads.

(** Two calls on the model, for two images, on the variants at the
    addresses 1 and 2. *)
Definition modelSystem : System (option string) DeviceConfig :=
  mkSystem
    (mkThread 1 (exampleInfo "docker.io/library/busybox:latest" false) AtLock)
    (mkThread 2 (exampleInfo "quay.io/app:v1" false) AtLock)
    (mkShared false
       {[ 1%nat := exampleDevice "registry"; 2%nat := exampleDevice "registry" ]}
       []).

Definition modelStep :=
  step (methods := DeviceVariant LoadMirrorsConfig_model)
    ParseImage_model ConvertToVPCHost_model "/etc/nydus/certs.d"
    GetRegistryKeyChain_model.

Definition hostAt (a : nat) (σ : System (option string) DeviceConfig)
    : option (string * string) :=
  (λ d, (Host (Config d), Repo (Config d))) <$> heap (shared σ) !! a.

(** * When the filter returns *)

(** [Serializable obj]: the walk of the filter over [obj] meets no
    field it panics on.  A field is passed over when it is secret or a
    nil pointer; any other field must be exported, and is then
    omitted, stored as it is, or walked in turn when it is a struct or
    a pointer. *)
Inductive Serializable : Value → Prop :=
| Serializable_fields obj fields :
    structOf obj = Some fields →
    Forall FieldSerializable fields →
    Serializable obj
with FieldSerializable : StructField * Value → Prop :=
| FieldSerializable_skipped f v :
    isSecret f || isNilPtr v = true → FieldSerializable (f, v)
| FieldSerializable_omitted f v :
    Exported f = true → hasOmitempty f && equalsZero v = true →
    FieldSerializable (f, v)
| FieldSerializable_value f v :
    Exported f = true →
    KindOf v ≠ reflect.Struct → KindOf v ≠ reflect.Ptr →
    FieldSerializable (f, v)
| FieldSerializable_struct f v :
    Exported f = true → KindOf v = reflect.Struct → Serializable v →
    FieldSerializable (f, v)
| FieldSerializable_ptr f t elem :
    Exported f = true → Serializable (Interface elem) →
    FieldSerializable (f, VPtr t (Some elem)).

(** The keys of the fields of a struct that get an entry. *)
Definition renderedKeys (fields : list (StructField * Value)) : list string :=
  (λ fv, jsonKey fv.1) <$> filter (λ fv, rendered fv = true) fields.

(** ** The entries of the configuration structs *)

Global Instance ProxyConfig_eq_dec : EqDecision ProxyConfig.
Proof. solve_decision. Defined.

(** The entry of a field tagged [omitempty], by the type of the
    field: none for the zero value. *)
Definition stringEntry (s : string) : option Any :=
  if decide (s = "") then None else Some (AValue (VString s)).

Definition intEntry (n : Z) : option Any :=
  if decide (n = 0%Z) then None else Some (AValue (VInt n)).

Definition boolEntry (b : bool) : option Any :=
  if b then Some (AValue (VBool true)) else None.

(** The keys a redacted [BackendConfig] can have. *)
Definition backendKeys : list string :=
  ["blob_file"; "dir"; "readahead"; "readahead_sec"; "host"; "repo";
   "blob_url_scheme"; "blob_redirected_host"; "mirrors"; "endpoint";
   "bucket_name"; "object_prefix"; "scheme"; "skip_verify"; "proxy";
   "timeout"; "connect_timeout"; "retry_limit"].

(** The redacted form of a [DeviceConfig], entries in the order of
    declaration; [backend] is the redacted form of its backend. *)
Definition cacheConfigMap (c : CacheConfig) : gmap string Any :=
  <["disable_indexed_map" := AValue (VBool (DisableIndexedMap c))]>
    (<["work_dir" := AValue (VString (WorkDir c))]> ∅).

Definition cacheMap (c : CacheConfig) : gmap string Any :=
  <["config" := AMap (cacheConfigMap c)]>
    ((if Compressed c then <["compressed" := AValue (VBool true)]> else id)
       (<["type" := AValue (VString (CacheType c))]> ∅)).

Definition backendMap (d : DeviceConfig) (backend : gmap string Any)
    : gmap string Any :=
  <["config" := AMap backend]>
    (<["type" := AValue (VString (BackendType d))]> ∅).

Definition deviceMap (d : DeviceConfig) (backend : gmap string Any)
    : gmap string Any :=
  <["cache" := AMap (cacheMap (Cache d))]>
    (<["backend" := AMap (backendMap d backend)]> ∅).

(** * The factory of daemon configurations *)

(** The value of interface type [DaemonConfig] the factory returns
    when it is not [nil]: a pointer, which can itself be nil, to the
    configuration of one of the two drivers. *)
Inductive DaemonConfigValue (Fscache Fuse : Type) :=
| FscacheDaemonConfigPtr (p : option Fscache)
| FuseDaemonConfigPtr (p : option Fuse).
Arguments FscacheDaemonConfigPtr {_ _}.
Arguments FuseDaemonConfigPtr {_ _}.

(** The loaders the factory calls. *)
Inductive LoaderCall :=
| CallLoadFscacheConfig (path : string)
| CallLoadFuseConfig (path : string).

Definition loaderPath (call : LoaderCall) : string :=
  match call with
  | CallLoadFscacheConfig path | CallLoadFuseConfig path => path
  end.

Section Factory.
Context {Fscache Fuse : Type}.

(** The driver names [config.FsDriverFscache] and
    [config.FsDriverFusedev], the two loaders, and the verb [%q] of
    package [fmt] on a string, none of which is part of this
    package. *)
Variable FsDriverFscache FsDriverFusedev : string.
Variable LoadFscacheConfig : string → option Fscache * option error.
Variable LoadFuseConfig : string → option Fuse * option error.
Variable Quote : string → string.

(** [NewDaemonConfig]: the configuration and the error returned
    ([None] for [nil]), and the loaders called. *)
Definition NewDaemonConfig (fsDriver path : string)
    : option (DaemonConfigValue Fscache Fuse) * option error
      * list LoaderCall :=
  if decide (fsDriver = FsDriverFscache) then
    let '(cfg, err) := LoadFscacheConfig path in
    match err with
    | Some err => (None, Some err, [CallLoadFscacheConfig path])
    | None => (Some (FscacheDaemonConfigPtr cfg), None,
               [CallLoadFscacheConfig path])
    end
  else if decide (fsDriver = FsDriverFusedev) then
    let '(cfg, err) := LoadFuseConfig path in
    match err with
    | Some err => (None, Some err, [CallLoadFuseConfig path])
    | None => (Some (FuseDaemonConfigPtr cfg), None,
               [CallLoadFuseConfig path])
    end
  else
    (None, Some (Errorf ("unsupported, fs driver " +:+ Quote fsDriver)), []).
End Factory.

(** * The plugin of the snapshotter *)

(** [errors.New]. *)
Definition errors_New (msg : string) : error := Errorf msg.

Section Plugin.
(** The types of the plugin framework and of the snapshotter, which
    are not part of this package: a platform, a snapshotter, a
    configuration of another plugin, and the fields of
    [config.SnapshotterConfig] other than [Root]. *)
Context {Platform Snapshotter Other Rest : Type}.

Record SnapshotterConfig := mkSnapshotterConfig {
  Root : string;
  otherFields : Rest
}.

(** [ic.Config]: an [interface{}], which holds a
    [*config.SnapshotterConfig], nil or not, or something else. *)
Inductive PluginConfig :=
| SnapshotterConfigPtr (cfg : option SnapshotterConfig)
| OtherConfig (o : Other)
| NilConfig.

(** The parts of [plugin.InitContext] the function uses. *)
Record InitContext := mkInitContext {
  ic_Platforms : list Platform;
  ic_Config : PluginConfig;
  ic_Root : string
}.

(** The calls the function makes, with the configuration passed. *)
Inductive PluginCall :=
| CallFillUpWithDefaults (cfg : SnapshotterConfig)
| CallNewSnapshotter (cfg : SnapshotterConfig).

(** [platforms.DefaultSpec ()], the method [FillUpWithDefaults] and
    [snapshot.NewSnapshotter]; the two that receive the pointer [cfg]
    return the configuration they leave behind it. *)
Variable DefaultSpec : Platform.
Variable FillUpWithDefaults :
  SnapshotterConfig → SnapshotterConfig * option error.
Variable NewSnapshotter :
  SnapshotterConfig → SnapshotterConfig * (option Snapshotter * option error).

(** What a run of [InitFn] yields: the two values returned, the
    context as the run leaves it, and the calls made. *)
Record InitResult := mkInitResult {
  returned : option Snapshotter;
  failure : option error;
  context : InitContext;
  pluginCalls : list PluginCall
}.

(** The function [InitFn] of the registration; [None] is the panic of
    [cfg.Root] on a nil pointer. *)
Definition InitFn (ic : InitContext) : option InitResult :=
  let platforms := ic_Platforms ic ++ [DefaultSpec] in
  match ic_Config ic with
  | SnapshotterConfigPtr (Some cfg) =>
      let cfg :=
        if decide (Root cfg = "")
        then mkSnapshotterConfig (ic_Root ic) (otherFields cfg)
        else cfg in
      let '(filled, err) := FillUpWithDefaults cfg in
      match err with
      | Some _ =>
          Some (mkInitResult None
                  (Some (errors_New
                     "failed to fill up nydus configuration with defaults"))
                  (mkInitContext platforms
                     (SnapshotterConfigPtr (Some filled)) (ic_Root ic))
                  [CallFillUpWithDefaults cfg])
      | None =>
          let '(used, (rs, err)) := NewSnapshotter filled in
          let ic' :=
            mkInitContext platforms (SnapshotterConfigPtr (Some used))
              (ic_Root ic) in
          let calls := [CallFillUpWithDefaults cfg; CallNewSnapshotter filled] in
          match err with
          | Some err =>
              Some (mkInitResult None
                      (Some (Wrap err "failed to initialize snapshotter"))
                      ic' calls)
          | None => Some (mkInitResult rs None ic' calls)
          end
      end
  | SnapshotterConfigPtr None => None
  | other =>
      Some (mkInitResult None
              (Some (errors_New "invalid nydus snapshotter configuration"))
              (mkInitContext platforms other (ic_Root ic)) [])
  end.
End Plugin.

(** Collaborators to run the plugin on: a configuration whose other
    fields are a counter that [FillUpWithDefaults] increments, failing
    on the root [/]; a snapshotter that is the root it was built
    for. *)
Definition exampleFillUp (cfg : SnapshotterConfig (Rest := nat))
    : SnapshotterConfig (Rest := nat) * option error :=
  (mkSnapshotterConfig (Root cfg) (S (otherFields cfg)),
   if decide (Root cfg = "/") then Some (Errorf "root is not usable")
   else None).

Definition exampleNewSnapshotter (cfg : SnapshotterConfig (Rest := nat))
    : SnapshotterConfig (Rest := nat) * (option string * option error) :=
  (cfg, (Some (Root cfg), None)).

Definition exampleInit
    : InitContext (Platform := string) (Other := unit) (Rest := nat)
      → option (InitResult (Platform := string) (Snapshotter := string)
                  (Other := unit) (Rest := nat)) :=
  InitFn "linux/amd64" exampleFillUp exampleNewSnapshotter.

Definition exampleContext (root : string) (config : PluginConfig)
    : InitContext (Platform := string) (Other := unit) (Rest := nat) :=
  mkInitContext ["linux/arm64"] config root.

(** * Facts about the secret filter *)

Lemma Split_cons s sep : ∃ w ws, Split s sep = w :: ws.
Proof.
  induction s as [|c s IH]; simpl; [by eauto|].
  destruct IH as (w & ws & ->). case_decide; eauto.
Qed.

Lemma Split_lookup_0 s sep : Split s sep !! 0%nat = Some (hd "" (Split s sep)).
Proof. by destruct (Split_cons s sep) as (w & ws & ->). Qed.

Lemma field_step_spec serialize result f v :
  field_step serialize result (f, v) =
  if isSecret f || isNilPtr v then Some result
  else if Exported f then
    if hasOmitempty f && equalsZero v then Some result
    else a ← render serialize v; Some (<[jsonKey f := a]> result)
  else None.
Proof.
  unfold field_step, isSecret, isNilPtr, hasOmitempty, equalsZero, jsonKey,
    checkInterface, CanInterface.
  rewrite Split_lookup_0.
  destruct (decide (Get (Tag f) "secret" = "true")) as [Hs|Hs].
  { by rewrite bool_decide_eq_true_2. }
  rewrite (bool_decide_eq_false_2 _ Hs). simpl.
  destruct (Exported f), (bool_decide ("omitempty" ∈ _));
    destruct v as [| | | | | |? [?|]| |]; cbn; try done.
  all: try (destruct (DeepEqual _ _); cbn; try done).
  all: try by destruct (serialize _).
Qed.

(** ** Zero values are deeply equal to themselves *)

Lemma StructField_eqb_refl f : StructField_eqb f f = true.
Proof.
  unfold StructField_eqb. by rewrite !bool_decide_eq_true_2.
Qed.


Lemma TypeOf_Zero t : TypeOf (Zero t) = t.
Proof.
  induction t as [| | | |t IH|k t IHk IH|t IH| |fs IH]
    using GoType_nested_ind; simpl; try done.
  f_equal. induction IH as [|[f x] fs Hx _ IH]; [done|].
  simpl in *. by rewrite Hx, IH.
Qed.



(** ** The loop over the fields *)

Arguments field_step : simpl never.

Section LoopFacts.
Variable serialize : Value → option (gmap string Any).
Implicit Types (result m : gmap string Any) (fv : StructField * Value).
Implicit Types (fs : list (StructField * Value)).

Lemma fields_loop_app result fs1 fs2 :
  fields_loop serialize result (fs1 ++ fs2) =
  fields_loop serialize result fs1 ≫= λ r, fields_loop serialize r fs2.
Proof.
  revert result. induction fs1 as [|fv fs1 IH]; intros result; [done|].
  simpl. destruct (field_step serialize result fv); [apply IH|done].
Qed.

(** A secret field leaves the map as it is, whatever it holds. *)
Lemma field_step_secret result fv :
  isSecret fv.1 = true → field_step serialize result fv = Some result.
Proof.
  destruct fv as [f v]. intros Hs. rewrite field_step_spec.
  simpl in Hs. by rewrite Hs.
Qed.

(** A nil pointer leaves the map as it is. *)
Lemma field_step_nil_ptr result fv :
  isNilPtr fv.2 = true → field_step serialize result fv = Some result.
Proof.
  destruct fv as [f v]. intros Hs. rewrite field_step_spec.
  simpl in Hs. by rewrite Hs, orb_true_r.
Qed.

(** A field without an entry leaves the map as it is, when the loop
    gets past it. *)
Lemma field_step_not_rendered result fv m :
  rendered fv = false →
  field_step serialize result fv = Some m → m = result.
Proof.
  destruct fv as [f v]. unfold rendered. simpl. rewrite field_step_spec.
  destruct (isSecret f), (isNilPtr v); simpl; try congruence.
  destruct (Exported f); [|done].
  destruct (hasOmitempty f && equalsZero v); simpl; congruence.
Qed.

(** A field with an entry stores its rendering under its key. *)
Lemma field_step_rendered result fv m :
  rendered fv = true →
  field_step serialize result fv = Some m →
  ∃ a, render serialize fv.2 = Some a ∧ m = <[jsonKey fv.1 := a]> result.
Proof.
  destruct fv as [f v]. unfold rendered. simpl. rewrite field_step_spec.
  destruct (isSecret f), (isNilPtr v); simpl; try done.
  destruct (Exported f); [|done].
  destruct (hasOmitempty f && equalsZero v); simpl; [done|].
  destruct (render serialize v) as [a|]; simpl; [|done].
  intros _ [= <-]. eauto.
Qed.

(** Every entry of the final map was there before the loop or is the
    rendering of a field with an entry. *)
Lemma fields_loop_lookup result fs m k a :
  fields_loop serialize result fs = Some m →
  m !! k = Some a →
  result !! k = Some a ∨
  ∃ fv, fv ∈ fs ∧ rendered fv = true ∧ jsonKey fv.1 = k
        ∧ render serialize fv.2 = Some a.
Proof.
  revert result. induction fs as [|fv fs IH]; intros result; simpl.
  { intros [= ->]; auto. }
  destruct (field_step serialize result fv) as [r|] eqn:Hstep; [|done].
  simpl. intros Hloop Hk.
  destruct (IH _ Hloop Hk) as [Hr|(fv' & Hin & ?)].
  2:{ right. exists fv'. split; [apply elem_of_cons; by right|done]. }
  destruct (rendered fv) eqn:Hrend.
  - destruct (field_step_rendered _ _ _ Hrend Hstep) as (b & Hb & ->).
    destruct (decide (jsonKey fv.1 = k)) as [<-|Hne].
    + rewrite lookup_insert_eq in Hr. injection Hr as ->.
      right. exists fv. split; [apply elem_of_cons; by left|done].
    + rewrite lookup_insert_ne in Hr by done. by left.
  - rewrite (field_step_not_rendered _ _ _ Hrend Hstep) in Hr. by left.
Qed.

(** A key that no field with an entry uses is absent from the map. *)
Lemma fields_loop_lookup_None result fs m k :
  fields_loop serialize result fs = Some m →
  result !! k = None →
  Forall (λ fv, rendered fv = true → jsonKey fv.1 ≠ k) fs →
  m !! k = None.
Proof.
  intros Hloop Hres Hfs.
  destruct (m !! k) as [a|] eqn:Hk; [|done].
  destruct (fields_loop_lookup _ _ _ _ _ Hloop Hk)
    as [?|(fv & Hin & Hrend & Hkey & _)]; [congruence|].
  rewrite Forall_forall in Hfs. by destruct (Hfs fv Hin Hrend).
Qed.

(** The entries that are already there survive unless a field with
    an entry has their key. *)
Lemma fields_loop_preserve result fs m k :
  fields_loop serialize result fs = Some m →
  Forall (λ fv, rendered fv = true → jsonKey fv.1 ≠ k) fs →
  m !! k = result !! k.
Proof.
  revert result. induction fs as [|fv fs IH]; intros result; simpl.
  { by intros [= ->]. }
  destruct (field_step serialize result fv) as [r|] eqn:Hstep; [|done].
  simpl. intros Hloop Hfs. apply Forall_cons in Hfs as [Hfv Hfs].
  rewrite (IH _ Hloop Hfs).
  destruct (rendered fv) eqn:Hrend.
  - destruct (field_step_rendered _ _ _ Hrend Hstep) as (b & Hb & ->).
    by rewrite lookup_insert_ne by auto.
  - by rewrite (field_step_not_rendered _ _ _ Hrend Hstep).
Qed.

(** The entry of a field is its rendering, unless a later field
    with an entry has the same key. *)
Lemma fields_loop_lookup_last result fs1 fv fs2 m :
  fields_loop serialize result (fs1 ++ fv :: fs2) = Some m →
  rendered fv = true →
  Forall (λ fv', rendered fv' = true → jsonKey fv'.1 ≠ jsonKey fv.1) fs2 →
  ∃ a, render serialize fv.2 = Some a ∧ m !! jsonKey fv.1 = Some a.
Proof.
  rewrite fields_loop_app.
  destruct (fields_loop serialize result fs1) as [r1|]; [|done]. simpl.
  destruct (field_step serialize r1 fv) as [r2|] eqn:Hstep; [|done]. simpl.
  intros Hloop Hrend Hfs2.
  destruct (field_step_rendered _ _ _ Hrend Hstep) as (a & Ha & ->).
  exists a. split; [done|].
  rewrite (fields_loop_preserve _ _ _ _ Hloop Hfs2).
  apply lookup_insert_eq.
Qed.


(** The loop over a struct is the loop over its fields that are not
    secret. *)
Lemma fields_loop_filter_secret result fs :
  fields_loop serialize result fs =
  fields_loop serialize result (filter (λ fv, isSecret fv.1 = false) fs).
Proof.
  revert result. induction fs as [|fv fs IH]; intros result; [done|].
  rewrite filter_cons. destruct (isSecret fv.1) eqn:Hs.
  - rewrite decide_False by done. simpl.
    rewrite field_step_secret by done. apply IH.
  - rewrite decide_True by done. simpl.
    destruct (field_step serialize result fv); [apply IH|done].
Qed.

(** The loop does not panic when no turn does. *)
Lemma fields_loop_is_Some result fs :
  Forall (λ fv, ∀ r, is_Some (field_step serialize r fv)) fs →
  is_Some (fields_loop serialize result fs).
Proof.
  intros Hfs. revert result.
  induction Hfs as [|fv fs Hfv _ IH]; intros result; simpl; [by eauto|].
  destruct (Hfv result) as [r ->]. apply IH.
Qed.
End LoopFacts.

Lemma serializeWithSecretFilter_eq obj :
  serializeWithSecretFilter obj =
  structOf obj ≫= fields_loop serializeWithSecretFilter ∅.
Proof. by destruct obj as [| | | | | |? [[]|]| |]. Qed.

Lemma serialize_struct fields :
  serializeWithSecretFilter (VStruct fields) =
  fields_loop serializeWithSecretFilter ∅ fields.
Proof. done. Qed.

Lemma rendered_not_secret fv :
  rendered fv = true → Get (Tag fv.1) "secret" ≠ "true".
Proof.
  unfold rendered, isSecret. intros Hr Hs.
  by rewrite (bool_decide_eq_true_2 _ Hs) in Hr.
Qed.

Lemma Redacted_ptr t fields m :
  Redacted (VStruct fields) m → Redacted (VPtr t (Some (VStruct fields))) m.
Proof. inversion 1; subst. by econstructor. Qed.

Lemma serialize_Redacted obj m :
  serializeWithSecretFilter obj = Some m → Redacted obj m.
Proof.
  set (Q := λ v, ∀ m, serializeWithSecretFilter v = Some m → Redacted v m).
  enough (Q obj ∧ Q (Interface obj)
          ∧ ∀ t e, obj = VPtr t (Some e) → Q (Interface e)) as [HQ _]
    by apply HQ.
  clear m.
  induction obj as [b|n|n|s|t|t xs _|k t|k t kvs _|t|t p IH| |d IH|fs IH]
    using Value_nested_ind; try (by repeat split; intros ?; try done).
  - destruct IH as (Hp & Hip & _). split_and!.
    + intros m. destruct p; try done. intros Hm. by apply Redacted_ptr, Hp.
    + intros m. destruct p; try done. intros Hm. by apply Redacted_ptr, Hp.
    + by intros ?? [= _ ->].
  - destruct IH as (Hd & _). by split_and!.
  - assert (Q (VStruct fs)) as HQ; [|by split_and!].
    intros m Hm. econstructor; [done|]. intros k a Hk.
    simpl in Hm.
    destruct (fields_loop_lookup _ _ _ _ _ _ Hm Hk)
      as [?|(fv & Hin & Hrend & Hkey & Ha)]; [done|].
    exists fv. split_and!; [done|by apply rendered_not_secret|done|].
    rewrite Forall_forall in IH. destruct (IH fv Hin) as (Hv & _ & Hptr).
    destruct fv as [f v]. simpl in *.
    destruct v as [| | | | | |t' [e|]| |fs']; simpl in Ha;
      try (injection Ha as <-; by constructor).
    + destruct (serializeWithSecretFilter (Interface e)) as [m'|] eqn:Hm';
        [|done].
      injection Ha as <-. apply RedactedEntry_ptr. by eapply Hptr.
    + done.
    + destruct (fields_loop _ _ fs') as [m'|] eqn:Hm'; [|done].
      injection Ha as <-. apply RedactedEntry_struct; [done|]. by apply Hv.
Qed.

(** ** The filter on the configuration structs *)

Lemma field_step_exported serialize r f v :
  Exported f = true → is_Some (render serialize v) →
  is_Some (field_step serialize r (f, v)).
Proof.
  intros Hex [a Ha]. rewrite field_step_spec, Hex, Ha.
  destruct (_ || _); [by eauto|]. destruct (_ && _); simpl; by eauto.
Qed.

Lemma field_step_skipped serialize r f v :
  isSecret f || isNilPtr v = true →
  is_Some (field_step serialize r (f, v)).
Proof. intros H. rewrite field_step_spec, H. by eauto. Qed.

Lemma rendered_always f v :
  isSecret f = false → hasOmitempty f = false → isNilPtr v = false →
  rendered (f, v) = true.
Proof. unfold rendered. simpl. by intros -> -> ->. Qed.

(** Closes the side conditions on the fields of a concrete struct. *)
Ltac field_facts :=
  repeat first
    [ apply Forall_nil_2
    | apply Forall_cons_2 ].

Lemma ProxyConfig_serializes p :
  is_Some (serializeWithSecretFilter (ProxyConfig_value p)).
Proof.
  apply fields_loop_is_Some. field_facts.
  all: intros r; by apply field_step_exported; eauto.
Qed.

Lemma BackendConfig_serializes c :
  is_Some (serializeWithSecretFilter (BackendConfig_value c)).
Proof.
  apply fields_loop_is_Some. field_facts.
  all: intros r; apply field_step_exported; [done|]; try by eauto.
  unfold render, ProxyConfig_value. apply fmap_is_Some.
  apply (ProxyConfig_serializes (Proxy c)).
Qed.

Lemma DeviceConfig_serializes d :
  is_Some (serializeWithSecretFilter (DeviceConfig_value d)).
Proof.
  apply fields_loop_is_Some. field_facts.
  - intros r. apply field_step_exported; [done|].
    unfold render. apply fmap_is_Some.
    apply fields_loop_is_Some. field_facts.
    + intros r'. by apply field_step_exported; eauto.
    + intros r'. apply field_step_exported; [done|].
      unfold render, BackendConfig_value. apply fmap_is_Some.
      apply (BackendConfig_serializes (Config d)).
  - intros r. apply field_step_exported; [done|].
    unfold render. apply fmap_is_Some.
    apply fields_loop_is_Some. field_facts.
    1,2: intros r'; by apply field_step_exported; eauto.
    intros r'. apply field_step_exported; [done|].
    unfold render. apply fmap_is_Some.
    apply fields_loop_is_Some. field_facts.
    all: intros r''; by apply field_step_exported; eauto.
Qed.

(** The four credentials of a backend have no entry. *)
Lemma BackendConfig_no_secret_key c m :
  serializeWithSecretFilter (BackendConfig_value c) = Some m →
  m !! "auth" = None ∧ m !! "registry_token" = None
  ∧ m !! "access_key_id" = None ∧ m !! "access_key_secret" = None.
Proof.
  unfold BackendConfig_value. rewrite serialize_struct. intros Hm.
  split_and!; (eapply fields_loop_lookup_None; [exact Hm|done|]).
  all: field_facts.
  all: try (intros _; by vm_compute).
  all: unfold rendered; simpl; by intros [=].
Qed.

(** The backend nested in a device configuration is filtered too. *)
Lemma DeviceConfig_no_secret_key d :
  ∃ m mb mc,
    serializeWithSecretFilter (DeviceConfig_value d) = Some m
    ∧ m !! "backend" = Some (AMap mb)
    ∧ mb !! "config" = Some (AMap mc)
    ∧ mc !! "auth" = None ∧ mc !! "registry_token" = None
    ∧ mc !! "access_key_id" = None ∧ mc !! "access_key_secret" = None.
Proof.
  destruct (DeviceConfig_serializes d) as [m Hm]. exists m.
  pose proof Hm as Hloop.
  unfold DeviceConfig_value in Hloop. rewrite serialize_struct in Hloop.
  eapply (fields_loop_lookup_last _ _ []) in Hloop as (a & Ha & Hka);
    [|by apply rendered_always|].
  2:{ field_facts. intros _. by vm_compute. }
  cbn [snd fst render] in Ha, Hka. change (jsonKey _) with "backend" in Hka.
  rewrite serialize_struct in Ha.
  destruct (fields_loop _ _ _) as [mb|] eqn:Hmb in Ha; [|done].
  injection Ha as <-. exists mb.
  pose proof Hmb as Hloop.
  eapply (fields_loop_lookup_last _ _ [_]) in Hloop as (a & Ha & Hkb);
    [|by apply rendered_always|by field_facts].
  cbn [snd fst] in Ha, Hkb. change (jsonKey _) with "config" in Hkb.
  unfold render, BackendConfig_value in Ha.
  destruct (serializeWithSecretFilter _) as [mc|] eqn:Hmc in Ha; [|done].
  injection Ha as <-. exists mc.
  split_and!; try done; by apply (BackendConfig_no_secret_key (Config d)).
Qed.

(** C1.  The redacted map holds no entry for a field tagged
    [secret:"true"], whatever the field holds: every entry of the map
    of [obj], and of the maps nested in it at any depth, is the entry
    of a field that is not secret; the secret fields of a struct can
    be deleted from it without changing the result; for every
    [BackendConfig] the keys of [Auth], [RegistryToken], [AccessKeyID]
    and [AccessKeySecret] are absent, also when the backend is nested
    in a [DeviceConfig]. *)
Theorem redact_omits_secret_fields :
  (∀ obj m, serializeWithSecretFilter obj = Some m → Redacted obj m)
  ∧ (∀ fields,
       serializeWithSecretFilter (VStruct fields) =
       serializeWithSecretFilter
         (VStruct (filter (λ fv, Get (Tag fv.1) "secret" ≠ "true") fields)))
  ∧ (∀ c : BackendConfig, ∃ m,
       serializeWithSecretFilter (BackendConfig_value c) = Some m
       ∧ m !! "auth" = None ∧ m !! "registry_token" = None
       ∧ m !! "access_key_id" = None ∧ m !! "access_key_secret" = None)
  ∧ (∀ d : DeviceConfig, ∃ m mb mc,
       serializeWithSecretFilter (DeviceConfig_value d) = Some m
       ∧ m !! "backend" = Some (AMap mb)
       ∧ mb !! "config" = Some (AMap mc)
       ∧ mc !! "auth" = None ∧ mc !! "registry_token" = None
       ∧ mc !! "access_key_id" = None ∧ mc !! "access_key_secret" = None).
Proof.
  split_and!.
  - apply serialize_Redacted.
  - intros fields. rewrite !serialize_struct, fields_loop_filter_secret.
    f_equal. apply list_filter_iff. intros fv. unfold isSecret.
    rewrite bool_decide_eq_false. done.
  - intros c. destruct (BackendConfig_serializes c) as [m Hm].
    exists m. split; [done|]. by apply (BackendConfig_no_secret_key c).
  - apply DeviceConfig_no_secret_key.
Qed.

(** The scenario of the design document:
    [BackendConfig{Auth: "token-abc", Host: "example.com"}]. *)
Lemma redact_omits_secret_fields_witness :
  serializeWithSecretFilter (BackendConfig_value scenarioBackend)
  = Some {[ "readahead" := AValue (VBool false);
            "host" := AValue (VString "example.com") ]}
  ∧ Redacted (BackendConfig_value scenarioBackend)
      {[ "readahead" := AValue (VBool false);
         "host" := AValue (VString "example.com") ]}.
Proof.
  assert (serializeWithSecretFilter (BackendConfig_value scenarioBackend)
          = Some {[ "readahead" := AValue (VBool false);
                    "host" := AValue (VString "example.com") ]}) as H.
  { vm_compute. reflexivity. }
  split; [exact H|].
  exact (proj1 redact_omits_secret_fields _ _ H).
Defined.

(** ** Omitted fields, keys, slices and maps *)

Lemma Split_hd s sep :
  ∃ rest,
    s = hd "" (Split s sep) +:+ rest
    ∧ (rest = "" ∨ ∃ r, rest = String sep r)
    ∧ ∀ a b, hd "" (Split s sep) ≠ a +:+ String sep b.
Proof.
  induction s as [|c s IH]; simpl.
  { exists "". split_and!; [done|by left|]. by intros [|??] ?. }
  case_decide as Hc.
  - subst c. exists (String sep s). split_and!; [done|right; by eexists|].
    by intros [|??] ?.
  - destruct (Split_cons s sep) as (w & ws & Hs). rewrite Hs in *.
    destruct IH as (rest & Heq & Hrest & Hw). simpl in *.
    exists rest. split_and!; [by rewrite Heq at 1|done|].
    intros [|c' a] b; simpl; intros [= ? ?]; subst; [done|].
    by eapply Hw.
Qed.




Lemma NoDup_keys_later (fs1 fs2 : list (StructField * Value))
    (fv : StructField * Value) :
  rendered fv = true →
  NoDup ((λ fv, jsonKey fv.1)
         <$> filter (λ fv, rendered fv = true) (fs1 ++ fv :: fs2)) →
  Forall (λ fv', rendered fv' = true → jsonKey fv'.1 ≠ jsonKey fv.1) fs2.
Proof.
  intros Hrend. rewrite filter_app, filter_cons_True by done.
  rewrite fmap_app, fmap_cons. intros Hnd.
  apply NoDup_app in Hnd as (_ & _ & Hnd). apply NoDup_cons in Hnd as [Hnin _].
  apply Forall_forall. intros fv' Hin Hrend' Heq. apply Hnin.
  apply list_elem_of_fmap. exists fv'. split; [done|].
  by apply list_elem_of_filter.
Qed.

(** C7, amended.  An entry is keyed by the first comma-separated part
    of the field's [json] tag, which is the empty string when the
    field declares no [json] tag: the name of the field is never used.
    Every entry of the result is the rendering of a field under that
    key; a field with an entry is found under its key unless a later
    field with an entry has the same key; and when the keys of the
    fields with an entry are distinct, each of them is found under its
    key. *)
Theorem redact_entry_keys (obj : Value) (fs : list (StructField * Value))
    (m : gmap string Any) :
  structOf obj = Some fs →
  serializeWithSecretFilter obj = Some m →
  (∀ k a, m !! k = Some a →
     ∃ fv, fv ∈ fs ∧ rendered fv = true ∧ k = jsonKey fv.1
           ∧ render serializeWithSecretFilter fv.2 = Some a)
  ∧ (∀ fs1 fv fs2,
       fs = fs1 ++ fv :: fs2 → rendered fv = true →
       Forall (λ fv', rendered fv' = true → jsonKey fv'.1 ≠ jsonKey fv.1) fs2 →
       ∃ a, render serializeWithSecretFilter fv.2 = Some a
            ∧ m !! jsonKey fv.1 = Some a)
  ∧ (NoDup ((λ fv, jsonKey fv.1) <$> filter (λ fv, rendered fv = true) fs) →
     ∀ fv, fv ∈ fs → rendered fv = true →
       ∃ a, render serializeWithSecretFilter fv.2 = Some a
            ∧ m !! jsonKey fv.1 = Some a)
  ∧ (∀ f : StructField,
       (Get (Tag f) "json" = "" → jsonKey f = "")
       ∧ ∃ rest,
           Get (Tag f) "json" = jsonKey f +:+ rest
           ∧ (rest = "" ∨ ∃ r, rest = String "," r)
           ∧ ∀ a b, jsonKey f ≠ a +:+ String "," b).
Proof.
  intros Hobj Hm. rewrite serializeWithSecretFilter_eq, Hobj in Hm.
  simpl in Hm.
  assert (∀ fs1 fv fs2,
            fs = fs1 ++ fv :: fs2 → rendered fv = true →
            Forall (λ fv', rendered fv' = true → jsonKey fv'.1 ≠ jsonKey fv.1)
                   fs2 →
            ∃ a, render serializeWithSecretFilter fv.2 = Some a
                 ∧ m !! jsonKey fv.1 = Some a) as Hlast.
  { intros fs1 fv fs2 -> Hrend Hlater.
    by eapply fields_loop_lookup_last. }
  split_and!.
  - intros k a Hk.
    destruct (fields_loop_lookup _ _ _ _ _ _ Hm Hk)
      as [?|(fv & ? & ? & ? & ?)]; [done|by exists fv].
  - exact Hlast.
  - intros Hnd fv Hin Hrend.
    apply list_elem_of_split in Hin as (fs1 & fs2 & ->).
    eapply Hlast; [done|done|]. by eapply NoDup_keys_later.
  - intros f. split.
    + unfold jsonKey. by intros ->.
    + apply Split_hd.
Qed.

(** C7 as stated fails: two fields without a [json] tag are both keyed
    by the empty string, not by their names, and share one entry. *)
Lemma redact_untagged_fields_share_key :
  ∃ m,
    serializeWithSecretFilter
      (VStruct [(mkField "Name" true [], VString "nydus");
                (mkField "Size" true [], VInt 7)]) = Some m
    ∧ m !! "Name" = None ∧ m !! "Size" = None
    ∧ m !! "" = Some (AValue (VInt 7))
    ∧ size m = 1%nat.
Proof.
  exists {[ "" := AValue (VInt 7) ]}.
  split_and!; [vm_compute; reflexivity|done..].
Qed.

Lemma redact_entry_keys_witness :
  ∃ a,
    render serializeWithSecretFilter (VString "example.com") = Some a
    ∧ ({[ "readahead" := AValue (VBool false);
          "host" := AValue (VString "example.com") ]} : gmap string Any)
      !! "host" = Some a.
Proof.
  assert (serializeWithSecretFilter (BackendConfig_value scenarioBackend)
          = Some {[ "readahead" := AValue (VBool false);
                    "host" := AValue (VString "example.com") ]}) as H.
  { vm_compute. reflexivity. }
  refine (proj1 (proj2 (redact_entry_keys
                          (BackendConfig_value scenarioBackend) _ _
                          eq_refl H))
            [_; _; _; _] (jsonField "Host" "host,omitempty", _) _
            eq_refl _ _).
  - vm_compute. reflexivity.
  - repeat (apply Forall_cons_2; [intros _; by vm_compute|]).
    apply Forall_nil_2.
Defined.

Lemma MirrorConfig_serializes c :
  is_Some (serializeWithSecretFilter (MirrorConfig_value c)).
Proof.
  apply fields_loop_is_Some. field_facts.
  all: intros r; by apply field_step_exported; eauto.
Qed.

Lemma equalsZero_slice t xs : equalsZero (VSlice t (Some xs)) = false.
Proof. unfold equalsZero. simpl. by rewrite andb_false_r. Qed.

Lemma equalsZero_map k t kvs : equalsZero (VMap k t (Some kvs)) = false.
Proof. unfold equalsZero. simpl. by rewrite andb_false_r. Qed.

(** The mirrors of a backend are stored as the slice they are. *)
Lemma BackendConfig_mirrors c ms :
  Mirrors c = Some ms →
  ∃ m, serializeWithSecretFilter (BackendConfig_value c) = Some m
       ∧ m !! "mirrors" =
         Some (AValue (VSlice MirrorConfig_type
                         (Some (MirrorConfig_value <$> ms)))).
Proof.
  intros Hms. destruct (BackendConfig_serializes c) as [m Hm].
  exists m. split; [done|].
  unfold BackendConfig_value in Hm. rewrite serialize_struct, Hms in Hm.
  eapply (fields_loop_lookup_last _ _ [_; _; _; _; _; _; _; _; _; _])
    in Hm as (a & Ha & Hk).
  - simpl in Ha. injection Ha as <-. exact Hk.
  - unfold rendered. cbn [fst snd fmap option_fmap option_map].
    rewrite equalsZero_slice. by vm_compute.
  - field_facts.
    all: try (intros _; by vm_compute).
    all: unfold rendered; simpl; by intros [=].
Qed.

(** The headers of a mirror are stored as the map they are. *)
Lemma MirrorConfig_headers c h :
  mirror_Headers c = Some h →
  ∃ m, serializeWithSecretFilter (MirrorConfig_value c) = Some m
       ∧ m !! "headers" = Some (AValue (VStrings (Some h))).
Proof.
  intros Hh. destruct (MirrorConfig_serializes c) as [m Hm].
  exists m. split; [done|].
  unfold MirrorConfig_value in Hm. rewrite serialize_struct, Hh in Hm.
  eapply (fields_loop_lookup_last _ _ [_]) in Hm as (a & Ha & Hk).
  - simpl in Ha. injection Ha as <-. exact Hk.
  - unfold rendered, VStrings. cbn [fst snd fmap option_fmap option_map].
    rewrite equalsZero_map. by vm_compute.
  - field_facts. all: intros _; by vm_compute.
Qed.

(** C10.  A field that is a slice or a map, when it gets an entry, is
    stored as the value it is, elements and entries included; so is
    every field that is neither a struct nor a pointer.  The entry of
    a field is a nested map only for a struct and for a pointer that
    is not nil, and then it is the result of the filter on the struct
    or on what the pointer points to.  So the mirrors of a
    [BackendConfig] and the headers of a [MirrorConfig] are stored as
    they are. *)
Theorem redact_keeps_slices_and_maps :
  (∀ (obj : Value) (fs1 fs2 : list (StructField * Value))
     (f : StructField) (v : Value) (m : gmap string Any),
     structOf obj = Some (fs1 ++ (f, v) :: fs2) →
     serializeWithSecretFilter obj = Some m →
     rendered (f, v) = true →
     Forall (λ fv', rendered fv' = true → jsonKey fv'.1 ≠ jsonKey f) fs2 →
     (KindOf v = reflect.Slice ∨ KindOf v = reflect.Map →
      m !! jsonKey f = Some (AValue v))
     ∧ (KindOf v ≠ reflect.Struct → KindOf v ≠ reflect.Ptr →
        m !! jsonKey f = Some (AValue (Interface v)))
     ∧ (∀ m', m !! jsonKey f = Some (AMap m') →
          (KindOf v = reflect.Struct
           ∧ serializeWithSecretFilter v = Some m')
          ∨ (∃ t elem, v = VPtr t (Some elem)
                       ∧ serializeWithSecretFilter (Interface elem)
                         = Some m')))
  ∧ (∀ (c : BackendConfig) (ms : list MirrorConfig),
       Mirrors c = Some ms →
       ∃ m, serializeWithSecretFilter (BackendConfig_value c) = Some m
            ∧ m !! "mirrors" =
              Some (AValue (VSlice MirrorConfig_type
                              (Some (MirrorConfig_value <$> ms)))))
  ∧ (∀ (c : MirrorConfig) (h : list (string * string)),
       mirror_Headers c = Some h →
       ∃ m, serializeWithSecretFilter (MirrorConfig_value c) = Some m
            ∧ m !! "headers" = Some (AValue (VStrings (Some h)))).
Proof.
  split_and!.
  - intros obj fs1 fs2 f v m Hobj Hm Hrend Hlater.
    rewrite serializeWithSecretFilter_eq, Hobj in Hm. simpl in Hm.
    destruct (fields_loop_lookup_last _ _ _ _ _ _ Hm Hrend Hlater)
      as (a & Ha & Hk).
    simpl in Ha, Hk. rewrite Hk. clear Hk Hm.
    split_and!.
    + intros [Hkind|Hkind];
        destruct v as [| | | |? [?|]|? ? [?|]|? [?|]|[?|]|]; try done;
        simpl in Ha; by injection Ha as <-.
    + intros Hs Hp.
      destruct v as [| | | |? [?|]|? ? [?|]|? [?|]|[?|]|]; try done;
        simpl in Ha; by injection Ha as <-.
    + intros m' [= ->].
      destruct v as [| | | |? [?|]|? ? [?|]|t [elem|]|[?|]|fs]; try done.
      * right. exists t, elem. split; [done|]. simpl in Ha.
        by destruct (serializeWithSecretFilter (Interface elem))
          as [?|]; simplify_eq/=.
      * left. split; [done|]. simpl in Ha.
        rewrite serialize_struct.
        by destruct (fields_loop _ _ fs) as [?|]; simplify_eq/=.
  - apply BackendConfig_mirrors.
  - apply MirrorConfig_headers.
Qed.

(** A slice of backends inside a struct keeps the credentials of its
    elements. *)
Lemma redact_keeps_slices_and_maps_witness :
  ({[ "backends" :=
        AValue (VSlice BackendConfig_type
                  (Some [BackendConfig_value scenarioBackend])) ]}
   : gmap string Any) !! "backends"
  = Some (AValue (VSlice BackendConfig_type
                    (Some [BackendConfig_value scenarioBackend]))).
Proof.
  refine (proj1 (proj1 redact_keeps_slices_and_maps
             (VStruct [(jsonField "Backends" "backends,omitempty",
                        VSlice BackendConfig_type
                          (Some [BackendConfig_value scenarioBackend]))])
             [] [] (jsonField "Backends" "backends,omitempty")
             (VSlice BackendConfig_type (Some [BackendConfig_value scenarioBackend]))
             _ eq_refl _ _ _) _).
  - vm_compute. reflexivity.
  - vm_compute. reflexivity.
  - apply Forall_nil_2.
  - by left.
Defined.

(** * Facts about [SupplementDaemonConfig] *)

(** Unfolds a run down to the methods of the variant. *)
Ltac run_supplement :=
  unfold SupplementDaemonConfig, SupplementDaemonConfig_body, Lock, Unlock,
    record, read, mutate, mbind, mret, Proc_bind, Proc_ret; simpl.

Section SupplementerFacts.
Context {KeyChain C : Type} {methods : DaemonConfig KeyChain C}.
Variable ParseImage : string → registry.Image + error.
Variable ConvertToVPCHost : string → string.
Variable GetMirrorsConfigDir : string.
Variable GetRegistryKeyChain :
  string → string → gmap string string → KeyChain.

Local Abbreviation W := (World KeyChain C).
Local Abbreviation run :=
  (SupplementDaemonConfig ParseImage ConvertToVPCHost GetMirrorsConfigDir
     GetRegistryKeyChain).

Lemma supplement_unparsed_run (info : SupplementInfoInterface) (w : W)
    (err : error) :
  configRWMutex w = false →
  ParseImage (GetImageID info) = inr err →
  run info w =
  Some (Some (Wrap err ("parse image " +:+ GetImageID info)),
        mkWorld false (variant w)
          (calls w ++ [EvLock; EvParseImage (GetImageID info); EvUnlock])).
Proof.
  destruct w as [mu c tr]. simpl. intros -> Hparse.
  run_supplement. rewrite Hparse. simpl.
  by rewrite <-!app_assoc.
Qed.

Lemma supplement_other_run (info : SupplementInfoInterface) (w : W)
    (image : registry.Image) :
  configRWMutex w = false →
  ParseImage (GetImageID info) = inl image →
  (StorageBackend (variant w)).1 ≠ backendTypeRegistry →
  run info w =
  Some (if decide ((StorageBackend (variant w)).1 = backendTypeLocalfs)
        then None
        else if decide ((StorageBackend (variant w)).1 = backendTypeOss)
        then None
        else Some (Errorf ("unknown backend type "
                           +:+ (StorageBackend (variant w)).1)),
        mkWorld false (variant w)
          (calls w ++ [EvLock; EvParseImage (GetImageID info);
                       EvStorageBackend; EvUnlock])).
Proof.
  destruct w as [mu c tr]. simpl. intros -> Hparse Hreg.
  run_supplement. rewrite Hparse. simpl.
  destruct (StorageBackend c) as [kind cfg]. simpl in *.
  rewrite decide_False by done.
  destruct (decide (kind = backendTypeLocalfs)) as [Hl|Hl];
    [|destruct (decide (kind = backendTypeOss)) as [Ho|Ho]]; simpl;
    by rewrite <-!app_assoc.
Qed.

Lemma supplement_registry_run (info : SupplementInfoInterface) (w : W)
    (image : registry.Image) :
  configRWMutex w = false →
  ParseImage (GetImageID info) = inl image →
  (StorageBackend (variant w)).1 = backendTypeRegistry →
  let host := effectiveHost ConvertToVPCHost info image in
  let kc := GetRegistryKeyChain host (GetImageID info) (GetLabels info) in
  run info w =
  match UpdateMirrors (variant w) GetMirrorsConfigDir host with
  | (c', Some err) =>
      Some (Some (Wrap err "update mirrors config"),
            mkWorld false c'
              (calls w ++ callsToUpdateMirrors ConvertToVPCHost GetMirrorsConfigDir info image ++ [EvUnlock]))
  | (c', None) =>
      Some (None,
            mkWorld false
              (FillAuth (Supplement c' host (registry.Repo image)
                           (GetSnapshotID info) (GetParams info)) kc)
              (calls w ++ callsToUpdateMirrors ConvertToVPCHost GetMirrorsConfigDir info image
               ++ [EvGetRegistryKeyChain host (GetImageID info)
                     (GetLabels info);
                   EvSupplement host (registry.Repo image)
                     (GetSnapshotID info) (GetParams info);
                   EvFillAuth kc; EvUnlock]))
  end.
Proof.
  destruct w as [mu c tr]. simpl. intros -> Hparse Hkind.
  unfold callsToUpdateMirrors, effectiveHost.
  run_supplement. rewrite Hparse. simpl.
  destruct (StorageBackend c) as [kind cfg]. simpl in Hkind. subst kind.
  rewrite decide_True by done.
  destruct (IsVPCRegistry info); simpl.
  - destruct (UpdateMirrors c _ _) as [c' [err|]]; simpl;
      by rewrite <-!app_assoc.
  - destruct (decide (registry.Host image = "docker.io")); simpl;
      destruct (UpdateMirrors c _ _) as [c' [err|]]; simpl;
      by rewrite <-!app_assoc.
Qed.
End SupplementerFacts.

Section SupplementerClaims.
Context {KeyChain C : Type} {methods : DaemonConfig KeyChain C}.
Variable ParseImage : string → registry.Image + error.
Variable ConvertToVPCHost : string → string.
Variable GetMirrorsConfigDir : string.
Variable GetRegistryKeyChain :
  string → string → gmap string string → KeyChain.

Local Abbreviation W := (World KeyChain C).
Local Abbreviation run :=
  (SupplementDaemonConfig ParseImage ConvertToVPCHost GetMirrorsConfigDir
     GetRegistryKeyChain).

(** C4.  When the image identifier does not parse, the call returns
    the parse error wrapped with the identifier; the variant is as
    it was, and between [Lock] and [Unlock] the parser is the only
    call: no [UpdateMirrors], [Supplement] or [FillAuth]. *)
Theorem supplement_parse_failure (info : SupplementInfoInterface) (w : W)
    (err : error) :
  configRWMutex w = false →
  ParseImage (GetImageID info) = inr err →
  run info w =
  Some (Some (Wrap err ("parse image " +:+ GetImageID info)),
        mkWorld false (variant w)
          (calls w ++ [EvLock; EvParseImage (GetImageID info); EvUnlock])).
Proof. apply supplement_unparsed_run. Qed.

(** C3, amended.  When the image identifier parses and the backend
    kind is localfs or oss, the call returns [nil]; when the kind is
    none of registry, localfs and oss, it returns an error whose
    text names the kind.  In both cases the variant is as it was
    and, between [Lock] and [Unlock], the calls are the parser and
    [StorageBackend]: no [UpdateMirrors], [Supplement] or
    [FillAuth]. *)
Theorem supplement_other_backends (info : SupplementInfoInterface) (w : W)
    (image : registry.Image) (kind : StorageBackendType) :
  configRWMutex w = false →
  ParseImage (GetImageID info) = inl image →
  (StorageBackend (variant w)).1 = kind →
  kind ≠ backendTypeRegistry →
  ∃ ret,
    run info w =
    Some (ret,
          mkWorld false (variant w)
            (calls w ++ [EvLock; EvParseImage (GetImageID info);
                         EvStorageBackend; EvUnlock]))
    ∧ (kind = backendTypeLocalfs ∨ kind = backendTypeOss → ret = None)
    ∧ (kind ≠ backendTypeLocalfs → kind ≠ backendTypeOss →
       ret = Some (Errorf ("unknown backend type " +:+ kind))
       ∧ ∀ e, ret = Some e → Error e = "unknown backend type " +:+ kind).
Proof.
  intros Hfree Hparse <- Hreg. eexists. split.
  { by apply (supplement_other_run ParseImage ConvertToVPCHost
                GetMirrorsConfigDir GetRegistryKeyChain info w image). }
  split.
  - intros [Hk|Hk].
    + by rewrite decide_True.
    + destruct (decide (_ = backendTypeLocalfs)); [done|].
      by rewrite decide_True.
  - intros Hl Ho. rewrite !decide_False by done.
    split; [done|]. by intros e [= <-].
Qed.

(** C2.  On a registry backend, with an image identifier that parses
    to a host and a repository, the host in use is the VPC rewrite
    of the parsed host when the VPC flag is set, [index.docker.io]
    when the flag is not set and the parsed host is [docker.io], and
    the parsed host otherwise.  [UpdateMirrors] is called with it.
    When [UpdateMirrors] returns no error the keychain lookup and
    [Supplement] follow, with the same host; when it returns an
    error neither is called.  With the flag not set and the parsed
    host [docker.io], [UpdateMirrors] is called with
    [index.docker.io]. *)
Theorem supplement_effective_host (info : SupplementInfoInterface) (w : W)
    (image : registry.Image) :
  configRWMutex w = false →
  ParseImage (GetImageID info) = inl image →
  (StorageBackend (variant w)).1 = backendTypeRegistry →
  let host :=
    if IsVPCRegistry info then ConvertToVPCHost (registry.Host image)
    else if decide (registry.Host image = "docker.io") then "index.docker.io"
    else registry.Host image in
  ∃ ret w' rest,
    run info w = Some (ret, w')
    ∧ calls w' =
      (calls w ++ [EvLock; EvParseImage (GetImageID info); EvStorageBackend]
       ++ (if IsVPCRegistry info
           then [EvConvertToVPCHost (registry.Host image)] else [])
       ++ [EvUpdateMirrors GetMirrorsConfigDir host] ++ rest
       ++ [EvUnlock])
    ∧ match (UpdateMirrors (variant w) GetMirrorsConfigDir host).2 with
      | Some _ => rest = []
      | None =>
          rest =
          [EvGetRegistryKeyChain host (GetImageID info) (GetLabels info);
           EvSupplement host (registry.Repo image) (GetSnapshotID info)
             (GetParams info);
           EvFillAuth (GetRegistryKeyChain host (GetImageID info)
                         (GetLabels info))]
      end
    ∧ (IsVPCRegistry info = false → registry.Host image = "docker.io" →
       EvUpdateMirrors GetMirrorsConfigDir "index.docker.io" ∈ calls w').
Proof.
  intros Hfree Hparse Hkind host.
  assert (IsVPCRegistry info = false → registry.Host image = "docker.io" →
          host = "index.docker.io") as Hdocker.
  { intros Hvpc Hhost. subst host. rewrite Hvpc. by rewrite decide_True. }
  assert (host = effectiveHost ConvertToVPCHost info image) as Hhost
    by reflexivity.
  clearbody host.
  pose proof (supplement_registry_run ParseImage ConvertToVPCHost
                GetMirrorsConfigDir GetRegistryKeyChain info w image
                Hfree Hparse Hkind) as Hrun.
  cbv zeta in Hrun. unfold callsToUpdateMirrors in Hrun.
  rewrite <-Hhost in Hrun. clear Hhost.
  assert (∀ tr : list (Event KeyChain),
            EvUpdateMirrors GetMirrorsConfigDir host
            ∈ (calls w
               ++ [EvLock; EvParseImage (GetImageID info); EvStorageBackend]
               ++ (if IsVPCRegistry info
                   then [EvConvertToVPCHost (registry.Host image)] else [])
               ++ [EvUpdateMirrors GetMirrorsConfigDir host] ++ tr))
    as Hin.
  { intros tr. apply elem_of_app; right. apply elem_of_app; right.
    apply elem_of_app; right. apply list_elem_of_here. }
  destruct (UpdateMirrors (variant w) GetMirrorsConfigDir host)
    as [c' [err|]].
  - eexists _, _, []. split; [exact Hrun|].
    split; [cbn [calls]; by rewrite <-!app_assoc|].
    split; [done|].
    intros Hvpc Hh. rewrite <-(Hdocker Hvpc Hh). cbn [calls].
    rewrite <-!app_assoc. apply Hin.
  - eexists _, _,
      [EvGetRegistryKeyChain host (GetImageID info) (GetLabels info);
       EvSupplement host (registry.Repo image) (GetSnapshotID info)
         (GetParams info);
       EvFillAuth (GetRegistryKeyChain host (GetImageID info)
                     (GetLabels info))].
    split; [exact Hrun|].
    split; [cbn [calls]; by rewrite <-!app_assoc|].
    split; [done|].
    intros Hvpc Hh. rewrite <-(Hdocker Hvpc Hh). cbn [calls].
    rewrite <-!app_assoc. apply Hin.
Qed.

(** C5.  On a registry backend, when [UpdateMirrors] returns an
    error, the call returns that error wrapped; [UpdateMirrors] is
    the last call before [Unlock], so neither [Supplement] nor
    [FillAuth] follows, and the variant is left as [UpdateMirrors]
    left it. *)
Theorem supplement_mirror_failure (info : SupplementInfoInterface) (w : W)
    (image : registry.Image) (c' : C) (err : error) :
  configRWMutex w = false →
  ParseImage (GetImageID info) = inl image →
  (StorageBackend (variant w)).1 = backendTypeRegistry →
  let host :=
    if IsVPCRegistry info then ConvertToVPCHost (registry.Host image)
    else if decide (registry.Host image = "docker.io") then "index.docker.io"
    else registry.Host image in
  UpdateMirrors (variant w) GetMirrorsConfigDir host = (c', Some err) →
  run info w =
  Some (Some (Wrap err "update mirrors config"),
        mkWorld false c'
          (calls w
           ++ [EvLock; EvParseImage (GetImageID info); EvStorageBackend]
           ++ (if IsVPCRegistry info
               then [EvConvertToVPCHost (registry.Host image)] else [])
           ++ [EvUpdateMirrors GetMirrorsConfigDir host; EvUnlock])).
Proof.
  intros Hfree Hparse Hkind host Hupdate.
  pose proof (supplement_registry_run ParseImage ConvertToVPCHost
                GetMirrorsConfigDir GetRegistryKeyChain info w image
                Hfree Hparse Hkind) as Hrun.
  simpl in Hrun. unfold callsToUpdateMirrors in Hrun.
  change (effectiveHost ConvertToVPCHost info image) with host in Hrun.
  rewrite Hupdate in Hrun. rewrite Hrun.
  by rewrite <-!app_assoc.
Qed.
End SupplementerClaims.

(** ** Runs on the model variant *)

Lemma supplement_parse_failure_witness :
  runModel (exampleDevice "registry") (exampleInfo "" false) =
  Some (Some (Wrap (Errorf "invalid reference format") "parse image "),
        mkWorld false (exampleDevice "registry")
          [EvLock; EvParseImage ""; EvUnlock]).
Proof.
  exact (supplement_parse_failure
           (methods := DeviceVariant LoadMirrorsConfig_model)
           ParseImage_model ConvertToVPCHost_model "/etc/nydus/certs.d"
           GetRegistryKeyChain_model (exampleInfo "" false)
           (mkWorld false (exampleDevice "registry") [])
           (Errorf "invalid reference format") eq_refl eq_refl).
Defined.

(** C3 as stated fails: with an image identifier that does not parse,
    a localfs variant gets the parse error instead of success, and a
    variant of an unknown kind gets the parse error instead of the
    error that names its kind. *)
Lemma supplement_other_backends_unparsed :
  runModel (exampleDevice "localfs") (exampleInfo "" false) =
  Some (Some (Wrap (Errorf "invalid reference format") "parse image "),
        mkWorld false (exampleDevice "localfs")
          [EvLock; EvParseImage ""; EvUnlock])
  ∧ runModel (exampleDevice "zfs") (exampleInfo "" false) =
    Some (Some (Wrap (Errorf "invalid reference format") "parse image "),
          mkWorld false (exampleDevice "zfs")
            [EvLock; EvParseImage ""; EvUnlock]).
Proof. split; reflexivity. Qed.

Lemma supplement_other_backends_witness :
  ∃ ret,
    runModel (exampleDevice "zfs") (exampleInfo "quay.io/app:v1" false) =
    Some (ret,
          mkWorld false (exampleDevice "zfs")
            [EvLock; EvParseImage "quay.io/app:v1"; EvStorageBackend;
             EvUnlock])
    ∧ ("zfs" = backendTypeLocalfs ∨ "zfs" = backendTypeOss → ret = None)
    ∧ ("zfs" ≠ backendTypeLocalfs → "zfs" ≠ backendTypeOss →
       ret = Some (Errorf "unknown backend type zfs")
       ∧ ∀ e, ret = Some e → Error e = "unknown backend type zfs").
Proof.
  refine (supplement_other_backends
            (methods := DeviceVariant LoadMirrorsConfig_model)
            ParseImage_model ConvertToVPCHost_model "/etc/nydus/certs.d"
            GetRegistryKeyChain_model (exampleInfo "quay.io/app:v1" false)
            (mkWorld false (exampleDevice "zfs") [])
            {| registry.Host := "quay.io"; registry.Repo := "app" |}
            "zfs" eq_refl eq_refl eq_refl _).
  discriminate.
Defined.

Lemma supplement_effective_host_witness :
  ∃ ret w' rest,
    runModel (exampleDevice "registry")
      (exampleInfo "docker.io/library/busybox:latest" false) = Some (ret, w')
    ∧ calls w' =
      ([EvLock; EvParseImage "docker.io/library/busybox:latest";
        EvStorageBackend;
        EvUpdateMirrors "/etc/nydus/certs.d" "index.docker.io"]
       ++ rest ++ [EvUnlock])
    ∧ rest =
      [EvGetRegistryKeyChain "index.docker.io"
         "docker.io/library/busybox:latest" ∅;
       EvSupplement "index.docker.io" "library/busybox" "42" ∅;
       EvFillAuth (Some "dG9rZW4=")]
    ∧ (false = false → "docker.io" = "docker.io" →
       EvUpdateMirrors "/etc/nydus/certs.d" "index.docker.io" ∈ calls w').
Proof.
  exact (supplement_effective_host
           (methods := DeviceVariant LoadMirrorsConfig_model)
           ParseImage_model ConvertToVPCHost_model "/etc/nydus/certs.d"
           GetRegistryKeyChain_model
           (exampleInfo "docker.io/library/busybox:latest" false)
           (mkWorld false (exampleDevice "registry") [])
           {| registry.Host := "docker.io";
              registry.Repo := "library/busybox" |}
           eq_refl eq_refl eq_refl).
Defined.

(** C2 as stated fails: on a registry backend, with an image
    identifier that parses, [UpdateMirrors] is called with the host
    in use and returns an error; the call returns at once, so neither
    the keychain lookup nor [Supplement] is called, with that host or
    any other. *)
Lemma supplement_effective_host_mirror_error :
  ∃ ret w',
    (StorageBackend (DaemonConfig := DeviceVariant LoadMirrorsConfig_model)
       (exampleDevice "registry")).1 = backendTypeRegistry
    ∧ ParseImage_model "unreadable.example.com/app:v1"
      = inl {| registry.Host := "unreadable.example.com";
               registry.Repo := "app" |}
    ∧ runModel (exampleDevice "registry")
        (exampleInfo "unreadable.example.com/app:v1" false)
      = Some (ret, w')
    ∧ calls w' =
      [EvLock; EvParseImage "unreadable.example.com/app:v1";
       EvStorageBackend;
       EvUpdateMirrors "/etc/nydus/certs.d" "unreadable.example.com";
       EvUnlock]
    ∧ (∀ host imageID labels,
         EvGetRegistryKeyChain host imageID labels ∉ calls w')
    ∧ (∀ host repo snapshotID params,
         EvSupplement host repo snapshotID params ∉ calls w').
Proof.
  eexists _, _. split; [reflexivity|]. split; [reflexivity|].
  split; [reflexivity|]. split; [reflexivity|].
  split; intros; cbn [calls]; intros Hin;
    repeat (apply elem_of_cons in Hin as [Hin|Hin]; [discriminate Hin|]);
    by apply elem_of_nil in Hin.
Qed.

Lemma supplement_mirror_failure_witness :
  runModel (exampleDevice "registry")
    (exampleInfo "unreadable.example.com/app:v1" false) =
  Some (Some (Wrap (Errorf "read mirror configuration")
                "update mirrors config"),
        mkWorld false (exampleDevice "registry")
          [EvLock; EvParseImage "unreadable.example.com/app:v1";
           EvStorageBackend;
           EvUpdateMirrors "/etc/nydus/certs.d" "unreadable.example.com";
           EvUnlock]).
Proof.
  exact (supplement_mirror_failure
           (methods := DeviceVariant LoadMirrorsConfig_model)
           ParseImage_model ConvertToVPCHost_model "/etc/nydus/certs.d"
           GetRegistryKeyChain_model
           (exampleInfo "unreadable.example.com/app:v1" false)
           (mkWorld false (exampleDevice "registry") [])
           {| registry.Host := "unreadable.example.com";
              registry.Repo := "app" |}
           (exampleDevice "registry") (Errorf "read mirror configuration")
           eq_refl eq_refl eq_refl eq_refl).
Defined.

Section VariantModelFacts.
Variable LoadMirrorsConfig : string → string → list MirrorConfig + error.
Variable ParseImage : string → registry.Image + error.
Variable ConvertToVPCHost : string → string.
Variable GetMirrorsConfigDir : string.
Variable GetRegistryKeyChain :
  string → string → gmap string string → option string.

Local Instance modelMethods : DaemonConfig (option string) DeviceConfig :=
  DeviceVariant LoadMirrorsConfig.

Local Abbreviation run :=
  (SupplementDaemonConfig (methods := DeviceVariant LoadMirrorsConfig)
     ParseImage ConvertToVPCHost GetMirrorsConfigDir GetRegistryKeyChain).

(** C8.  On a variant as the design document describes it, with the
    mutex free, a call returns, a second call with the same
    arguments returns the same result, and the variant after the
    second call is the variant after the first. *)
Theorem supplement_twice (info : SupplementInfoInterface)
    (w : World (option string) DeviceConfig) :
  configRWMutex w = false →
  ∃ ret w1 w2,
    run info w = Some (ret, w1)
    ∧ run info w1 = Some (ret, w2)
    ∧ variant w2 = variant w1
    ∧ configRWMutex w2 = false.
Proof.
  destruct w as [mu d tr]. simpl. intros ->.
  destruct (ParseImage (GetImageID info)) as [image|err] eqn:Hparse.
  2:{ eexists _, _, _. split.
      { by apply (supplement_unparsed_run
                    (methods := DeviceVariant LoadMirrorsConfig)
                    ParseImage ConvertToVPCHost GetMirrorsConfigDir
                    GetRegistryKeyChain info (mkWorld false d tr)). }
      simpl. split; [by apply (supplement_unparsed_run
                  (methods := DeviceVariant LoadMirrorsConfig)
                  ParseImage ConvertToVPCHost GetMirrorsConfigDir
                  GetRegistryKeyChain info (mkWorld false d _))|done]. }
  destruct (decide (BackendType d = backendTypeRegistry)) as [Hreg|Hreg].
  2:{ eexists _, _, _. split.
      { by apply (supplement_other_run
                    (methods := DeviceVariant LoadMirrorsConfig)
                    ParseImage ConvertToVPCHost GetMirrorsConfigDir
                    GetRegistryKeyChain info (mkWorld false d tr) image). }
      simpl. split; [by apply (supplement_other_run
                  (methods := DeviceVariant LoadMirrorsConfig)
                  ParseImage ConvertToVPCHost GetMirrorsConfigDir
                  GetRegistryKeyChain info (mkWorld false d _) image)|done]. }
  assert (∀ d' tr',
            BackendType d' = backendTypeRegistry →
            run info (mkWorld false d' tr') =
            match UpdateMirrors d' GetMirrorsConfigDir
                    (effectiveHost ConvertToVPCHost info image) with
            | (c', Some err) =>
                Some (Some (Wrap err "update mirrors config"),
                      mkWorld false c'
                        (tr' ++ callsToUpdateMirrors ConvertToVPCHost
                                  GetMirrorsConfigDir info image
                             ++ [EvUnlock]))
            | (c', None) =>
                Some (None,
                      mkWorld false
                        (FillAuth
                           (Supplement c'
                              (effectiveHost ConvertToVPCHost info image)
                              (registry.Repo image)
                              (GetSnapshotID info) (GetParams info))
                           (GetRegistryKeyChain
                              (effectiveHost ConvertToVPCHost info image)
                              (GetImageID info) (GetLabels info)))
                        (tr' ++ callsToUpdateMirrors ConvertToVPCHost
                                  GetMirrorsConfigDir info image
                             ++ [EvGetRegistryKeyChain
                                   (effectiveHost ConvertToVPCHost info
                                      image)
                                   (GetImageID info) (GetLabels info);
                                 EvSupplement
                                   (effectiveHost ConvertToVPCHost info
                                      image)
                                   (registry.Repo image)
                                   (GetSnapshotID info) (GetParams info);
                                 EvFillAuth
                                   (GetRegistryKeyChain
                                      (effectiveHost ConvertToVPCHost info
                                         image)
                                      (GetImageID info) (GetLabels info));
                                 EvUnlock]))
            end) as Hrun.
  { intros d' tr' Hd'.
    by apply (supplement_registry_run
                (methods := DeviceVariant LoadMirrorsConfig)
                ParseImage ConvertToVPCHost GetMirrorsConfigDir
                GetRegistryKeyChain info (mkWorld false d' tr') image). }
  set (host := effectiveHost ConvertToVPCHost info image) in *.
  set (kc := GetRegistryKeyChain host (GetImageID info) (GetLabels info))
    in *.
  clearbody host kc.
  pose proof (Hrun d tr Hreg) as Hrun1.
  cbv [UpdateMirrors modelMethods DeviceVariant] in Hrun, Hrun1.
  destruct (LoadMirrorsConfig GetMirrorsConfigDir host)
    as [mirrors|err] eqn:Hload.
  - eexists _, _, _. split; [exact Hrun1|].
    rewrite Hrun by by destruct kc.
    split; [reflexivity|]. split; [|done]. cbn [variant]. by destruct kc.
  - eexists _, _, _. split; [exact Hrun1|].
    rewrite Hrun by done. by split_and!.
Qed.
End VariantModelFacts.

Lemma supplement_twice_witness :
  ∃ ret w1 w2,
    runModel (exampleDevice "registry")
      (exampleInfo "docker.io/library/busybox:latest" false) = Some (ret, w1)
    ∧ SupplementDaemonConfig
        (methods := DeviceVariant LoadMirrorsConfig_model)
        ParseImage_model ConvertToVPCHost_model "/etc/nydus/certs.d"
        GetRegistryKeyChain_model
        (exampleInfo "docker.io/library/busybox:latest" false) w1
      = Some (ret, w2)
    ∧ variant w2 = variant w1
    ∧ configRWMutex w2 = false.
Proof.
  exact (supplement_twice LoadMirrorsConfig_model ParseImage_model
           ConvertToVPCHost_model "/etc/nydus/certs.d"
           GetRegistryKeyChain_model
           (exampleInfo "docker.io/library/busybox:latest" false)
           (mkWorld false (exampleDevice "registry") []) eq_refl).
Defined.

(** * Facts about concurrent calls *)

Section ThreadFacts.
Context {KeyChain C : Type} {methods : DaemonConfig KeyChain C}.
Variable ParseImage : string → registry.Image + error.
Variable ConvertToVPCHost : string → string.
Variable GetMirrorsConfigDir : string.
Variable GetRegistryKeyChain :
  string → string → gmap string string → KeyChain.

Local Abbreviation body :=
  (SupplementDaemonConfig_body ParseImage ConvertToVPCHost
     GetMirrorsConfigDir GetRegistryKeyChain).
Local Abbreviation run :=
  (SupplementDaemonConfig ParseImage ConvertToVPCHost GetMirrorsConfigDir
     GetRegistryKeyChain).
Local Abbreviation outcomeOf :=
  (outcome ParseImage ConvertToVPCHost GetMirrorsConfigDir
     GetRegistryKeyChain).
Local Abbreviation callsOf :=
  (bodyCalls ParseImage ConvertToVPCHost GetMirrorsConfigDir
     GetRegistryKeyChain).
Local Abbreviation stepThread :=
  (step_thread ParseImage ConvertToVPCHost GetMirrorsConfigDir
     GetRegistryKeyChain).
Local Abbreviation stepSystem :=
  (step ParseImage ConvertToVPCHost GetMirrorsConfigDir
     GetRegistryKeyChain).

(** The body returns, leaves the mutex alone, and what it returns
    and does to the variant depends on the variant and on [info]
    only. *)
Lemma body_frame info mu c tr :
  body info (mkWorld mu c tr) =
  Some ((outcomeOf info c).1,
        mkWorld mu (outcomeOf info c).2 (tr ++ callsOf info c)).
Proof.
  unfold outcome, bodyCalls.
  run_supplement.
  destruct (ParseImage (GetImageID info)) as [image|err]; simpl; [|done].
  destruct (StorageBackend c) as [kind cfg].
  repeat (case_decide; simpl); try by rewrite <-?app_assoc.
  all: destruct (IsVPCRegistry info); simpl;
    destruct (UpdateMirrors c _ _) as [c' [err|]]; simpl;
    by rewrite <-?app_assoc.
Qed.

Lemma bodyCalls_no_lock info c :
  Forall (λ e, e ≠ EvLock ∧ e ≠ EvUnlock) (callsOf info c).
Proof.
  unfold bodyCalls.
  run_supplement.
  destruct (ParseImage (GetImageID info)) as [image|err]; simpl;
    [|by repeat constructor].
  destruct (StorageBackend c) as [kind cfg].
  repeat (case_decide; simpl); try by repeat constructor.
  all: destruct (IsVPCRegistry info); simpl;
    destruct (UpdateMirrors c _ _) as [c' [err|]]; simpl;
    by repeat constructor.
Qed.

Lemma supplement_run info w :
  configRWMutex w = false →
  run info w =
  Some ((outcomeOf info (variant w)).1,
        mkWorld false (outcomeOf info (variant w)).2
          (calls w ++ [EvLock] ++ callsOf info (variant w)
           ++ [EvUnlock])).
Proof.
  destruct w as [mu c tr]. simpl. intros ->.
  unfold SupplementDaemonConfig.
  unfold mbind at 1, Proc_bind at 1, Lock. simpl.
  unfold mbind at 1, Proc_bind at 1. rewrite body_frame.
  unfold mbind, mret, Proc_bind, Proc_ret, Unlock. simpl.
  by rewrite <-!app_assoc.
Qed.

Lemma supplement_blocked info w :
  configRWMutex w = true → run info w = None.
Proof.
  destruct w as [mu c tr]. simpl. intros ->.
  unfold SupplementDaemonConfig.
  unfold mbind at 1, Proc_bind at 1, Lock. done.
Qed.

(** ** Two calls on two variants *)

Variables (a1 a2 : nat) (info1 info2 : SupplementInfoInterface).
Variables (c1 c2 : C) (h0 : gmap nat C).
Hypothesis distinct : a1 ≠ a2.

Local Abbreviation cell :=
  (cellInv ParseImage ConvertToVPCHost GetMirrorsConfigDir
     GetRegistryKeyChain).
Local Abbreviation invariant :=
  (Inv ParseImage ConvertToVPCHost GetMirrorsConfigDir GetRegistryKeyChain
     a1 a2 info1 info2 c1 c2 h0).

Lemma cellInv_insert_other a a' info c p h x :
  a ≠ a' → cell a info c p h → cell a info c p (<[a' := x]> h).
Proof.
  intros Hne. destruct p; simpl; rewrite lookup_insert_ne by done; done.
Qed.

(** A step of one call, under what the heap holds for it. *)
Lemma step_thread_inv a info c p (s : Shared KeyChain C) t s' :
  cell a info c p (heap s) →
  stepThread (mkThread a info p) s = Some (t, s') →
  target t = a ∧ request t = info
  ∧ cell a info c (phase t) (heap s')
  ∧ (∃ x, heap s' = <[a := x]> (heap s))
  ∧ stepsLeft p = S (stepsLeft (phase t))
  ∧ match p with
    | AtLock => mutex s = false ∧ mutex s' = true
    | InBody => mutex s' = mutex s
    | AtUnlock _ => mutex s = true ∧ mutex s' = false
    | Returned _ => False
    end
  ∧ holdsMutex (phase t) = match p with AtLock | InBody => true
                                         | _ => false end.
Proof.
  intros Hcell. unfold step_thread. simpl.
  destruct p as [| |ret|ret]; simpl in Hcell.
  - rewrite Hcell. simpl. unfold Lock, worldOf. simpl.
    destruct (mutex s) eqn:Hmu; simpl; [done|].
    intros [= <- <-]. simpl. rewrite lookup_insert_eq.
    split_and!; eauto.
  - rewrite Hcell. simpl. unfold worldOf. rewrite body_frame. simpl.
    intros [= <- <-]. simpl. rewrite lookup_insert_eq.
    split_and!; eauto.
  - destruct Hcell as [-> Hcell]. rewrite Hcell. simpl.
    unfold Unlock, worldOf. simpl.
    destruct (mutex s) eqn:Hmu; simpl; [|done].
    intros [= <- <-]. simpl. rewrite lookup_insert_eq.
    split_and!; eauto.
  - destruct Hcell as [-> Hcell]. by rewrite Hcell.
Qed.

Lemma step_thread_enabled a info c p (s : Shared KeyChain C) :
  cell a info c p (heap s) →
  match p with
  | AtLock => mutex s = false
  | InBody => True
  | AtUnlock _ => mutex s = true
  | Returned _ => False
  end →
  is_Some (stepThread (mkThread a info p) s).
Proof.
  intros Hcell Hen. unfold step_thread. simpl.
  destruct p as [| |ret|ret]; simpl in Hcell; try done.
  - rewrite Hcell. simpl. unfold Lock, worldOf. simpl. rewrite Hen. eauto.
  - rewrite Hcell. simpl. unfold worldOf. rewrite body_frame. simpl. eauto.
  - destruct Hcell as [-> Hcell]. rewrite Hcell. simpl.
    unfold Unlock, worldOf. simpl. rewrite Hen. eauto.
Qed.

Lemma step_Inv σ σ' :
  invariant σ → stepSystem σ σ' →
  invariant σ'
  ∧ stepsLeft (phase (first σ)) + stepsLeft (phase (second σ))
    = S (stepsLeft (phase (first σ')) + stepsLeft (phase (second σ'))).
Proof.
  intros (Ht1 & Hr1 & Ht2 & Hr2 & Hc1 & Hc2 & Hmu & Hex & Hframe) Hstep.
  destruct Hstep as [[[a i p] [a' i' p'] s] t s' Hstep
                    |[[a i p] [a' i' p'] s] t s' Hstep];
    simpl in *; subst.
  - destruct (step_thread_inv _ _ _ _ _ _ _ Hc1 Hstep)
      as (Ht & Hr & Hc & [x Hx] & Hleft & Hlock & Hholds).
    unfold Inv. simpl. rewrite Hleft. split; [|done].
    split_and!; try done.
    + rewrite Hx. by apply cellInv_insert_other.
    + rewrite Hholds.
      destruct p as [| |?|?], p' as [| |?|?]; simpl in *;
        destruct Hlock; congruence.
    + rewrite Hholds.
      destruct p as [| |?|?], p' as [| |?|?]; simpl in *;
        try done; destruct Hlock; congruence.
    + intros a Ha1 Ha2. rewrite Hx, lookup_insert_ne by done. by apply Hframe.
  - destruct (step_thread_inv _ _ _ _ _ _ _ Hc2 Hstep)
      as (Ht & Hr & Hc & [x Hx] & Hleft & Hlock & Hholds).
    unfold Inv. simpl. rewrite Hleft. split; [|lia].
    split_and!; try done.
    + rewrite Hx. by apply cellInv_insert_other.
    + rewrite Hholds.
      destruct p as [| |?|?], p' as [| |?|?]; simpl in *;
        destruct Hlock; congruence.
    + rewrite Hholds.
      destruct p as [| |?|?], p' as [| |?|?]; simpl in *;
        try done; destruct Hlock; congruence.
    + intros a Ha1 Ha2. rewrite Hx, lookup_insert_ne by done. by apply Hframe.
Qed.

(** No deadlock: unless both calls have returned, one can step. *)
Lemma Inv_progress σ : invariant σ → finished σ ∨ ∃ σ', stepSystem σ σ'.
Proof.
  intros (Ht1 & Hr1 & Ht2 & Hr2 & Hc1 & Hc2 & Hmu & Hex & Hframe).
  destruct σ as [[a i p] [a' i' p'] s]. simpl in *. subst.
  assert (∀ q, match q with
               | AtLock => mutex s = false
               | InBody => True
               | AtUnlock _ => mutex s = true
               | Returned _ => False
               end →
          cell a1 info1 c1 q (heap s) → q = p →
          ∃ σ', stepSystem (mkSystem (mkThread a1 info1 p)
                                      (mkThread a2 info2 p') s) σ') as Hfirst.
  { intros q Hen Hc ->.
    destruct (step_thread_enabled _ _ _ _ _ Hc Hen) as [[t s'] Hstep].
    eexists. by eapply (step_first _ _ _ _ (mkSystem _ _ _)). }
  assert (∀ q, match q with
               | AtLock => mutex s = false
               | InBody => True
               | AtUnlock _ => mutex s = true
               | Returned _ => False
               end →
          cell a2 info2 c2 q (heap s) → q = p' →
          ∃ σ', stepSystem (mkSystem (mkThread a1 info1 p)
                                      (mkThread a2 info2 p') s) σ') as Hsecond.
  { intros q Hen Hc ->.
    destruct (step_thread_enabled _ _ _ _ _ Hc Hen) as [[t s'] Hstep].
    eexists. by eapply (step_second _ _ _ _ (mkSystem _ _ _)). }
  destruct p as [| |r|r] eqn:Hp.
  - destruct p' as [| |r'|r'] eqn:Hp'; simpl in *.
    + right. by eapply (Hfirst AtLock).
    + right. by eapply (Hsecond InBody).
    + right. by eapply (Hsecond (AtUnlock r')).
    + right. by eapply (Hfirst AtLock).
  - right. by eapply (Hfirst InBody).
  - right. by eapply (Hfirst (AtUnlock r)).
  - destruct p' as [| |r'|r'] eqn:Hp'; simpl in *.
    + right. by eapply (Hsecond AtLock).
    + right. by eapply (Hsecond InBody).
    + right. by eapply (Hsecond (AtUnlock r')).
    + left. split; simpl; eauto.
Qed.

Lemma nsteps_Inv n σ σ' :
  invariant σ → nsteps stepSystem n σ σ' →
  invariant σ'
  ∧ stepsLeft (phase (first σ)) + stepsLeft (phase (second σ))
    = n + (stepsLeft (phase (first σ')) + stepsLeft (phase (second σ'))).
Proof.
  intros HInv Hsteps. induction Hsteps as [|n σ σ1 σ' Hstep _ IH]; [done|].
  destruct (step_Inv _ _ HInv Hstep) as [HInv1 Hleft].
  destruct (IH HInv1) as [HInv' Hleft']. split; [done|lia].
Qed.
End ThreadFacts.

(** C9.  A call takes the mutex before anything else and releases it
    last, whatever it returns: from a free mutex the calls it makes
    are [Lock], the calls of the body, none of which is a [Lock] or
    an [Unlock], and [Unlock], and the mutex is free again; while the
    mutex is held the call makes no progress.  Two calls on two
    distinct variants, interleaved in any way, take six steps in all,
    never reach a state in which neither has returned and neither can
    step, and end with each variant and each result as its own call
    leaves them when run alone; the other variants are untouched. *)
Theorem supplement_mutual_exclusion
    {KeyChain C : Type} {methods : DaemonConfig KeyChain C}
    (ParseImage : string → registry.Image + error)
    (ConvertToVPCHost : string → string) (GetMirrorsConfigDir : string)
    (GetRegistryKeyChain : string → string → gmap string string → KeyChain) :
  let run :=
    SupplementDaemonConfig ParseImage ConvertToVPCHost GetMirrorsConfigDir
      GetRegistryKeyChain in
  let step :=
    step ParseImage ConvertToVPCHost GetMirrorsConfigDir
      GetRegistryKeyChain in
  (∀ info (w : World KeyChain C),
     configRWMutex w = false →
     ∃ ret c' mid,
       run info w =
       Some (ret, mkWorld false c' (calls w ++ [EvLock] ++ mid ++ [EvUnlock]))
       ∧ Forall (λ e, e ≠ EvLock ∧ e ≠ EvUnlock) mid)
  ∧ (∀ info (w : World KeyChain C),
       configRWMutex w = true → run info w = None)
  ∧ (∀ (a1 a2 : nat) (info1 info2 : SupplementInfoInterface) (c1 c2 : C)
       (h : gmap nat C) (tr : list (Event KeyChain)) (n : nat)
       (σ : System KeyChain C),
       a1 ≠ a2 → h !! a1 = Some c1 → h !! a2 = Some c2 →
       nsteps step n
         (mkSystem (mkThread a1 info1 AtLock) (mkThread a2 info2 AtLock)
            (mkShared false h tr)) σ →
       (n ≤ 6)%nat
       ∧ (finished σ ∨ ∃ σ', step σ σ')
       ∧ (finished σ →
          n = 6 ∧ mutex (shared σ) = false
          ∧ ∃ ret1 ret2 w1 w2,
              run info1 (mkWorld false c1 []) = Some (ret1, w1)
              ∧ run info2 (mkWorld false c2 []) = Some (ret2, w2)
              ∧ phase (first σ) = Returned ret1
              ∧ phase (second σ) = Returned ret2
              ∧ heap (shared σ) !! a1 = Some (variant w1)
              ∧ heap (shared σ) !! a2 = Some (variant w2)
              ∧ ∀ a, a ≠ a1 → a ≠ a2 → heap (shared σ) !! a = h !! a)).
Proof.
  intros run step. split_and!.
  - intros info w Hfree. eexists _, _, _. split.
    + by apply supplement_run.
    + apply bodyCalls_no_lock.
  - apply supplement_blocked.
  - intros a1 a2 info1 info2 c1 c2 h tr n σ Hne H1 H2 Hsteps.
    eapply (nsteps_Inv ParseImage ConvertToVPCHost GetMirrorsConfigDir
              GetRegistryKeyChain a1 a2 info1 info2 c1 c2 h Hne)
      in Hsteps as [HInv Hleft].
    2:{ by repeat split. }
    simpl in Hleft. split; [lia|]. split.
    { by eapply Inv_progress. }
    intros [[r1 Hp1] [r2 Hp2]].
    destruct HInv as (_ & _ & _ & _ & Hc1 & Hc2 & Hmu & _ & Hframe).
    rewrite Hp1, Hp2 in *. simpl in *.
    destruct Hc1 as [-> Hc1]. destruct Hc2 as [-> Hc2].
    split; [lia|]. split; [done|].
    eexists _, _, _, _. split_and!.
    + by apply supplement_run.
    + by apply supplement_run.
    + done.
    + done.
    + done.
    + done.
    + done.
Qed.

Lemma supplement_mutual_exclusion_witness :
  ∃ σ,
    nsteps modelStep 6 modelSystem σ
    ∧ (finished σ ∨ ∃ σ', modelStep σ σ')
    ∧ hostAt 1 σ = Some ("index.docker.io", "library/busybox")
    ∧ hostAt 2 σ = Some ("quay.io", "app").
Proof.
  eexists.
  match goal with
  | |- nsteps _ _ _ ?σ ∧ _ =>
      assert (nsteps modelStep 6 modelSystem σ) as Hsteps
  end.
  { unfold modelStep.
    eapply nsteps_l; [apply step_second; vm_compute; reflexivity|].
    eapply nsteps_l; [apply step_second; vm_compute; reflexivity|].
    eapply nsteps_l; [apply step_second; vm_compute; reflexivity|].
    eapply nsteps_l; [apply step_first; vm_compute; reflexivity|].
    eapply nsteps_l; [apply step_first; vm_compute; reflexivity|].
    eapply nsteps_l; [apply step_first; vm_compute; reflexivity|].
    apply nsteps_O. }
  split; [exact Hsteps|]. split.
  - refine (proj1 (proj2 (proj2 (proj2 (supplement_mutual_exclusion
              (methods := DeviceVariant LoadMirrorsConfig_model)
              ParseImage_model ConvertToVPCHost_model "/etc/nydus/certs.d"
              GetRegistryKeyChain_model))
            1%nat 2%nat
            (exampleInfo "docker.io/library/busybox:latest" false)
            (exampleInfo "quay.io/app:v1" false)
            (exampleDevice "registry") (exampleDevice "registry")
            {[ 1%nat := exampleDevice "registry";
               2%nat := exampleDevice "registry" ]}
            [] 6%nat _ _ eq_refl eq_refl Hsteps))).
    discriminate.
  - split; vm_compute; reflexivity.
Defined.


(** * More about the secret filter *)

(** ** The inputs the filter returns on *)

Lemma field_step_Some_inv serialize r f v r' :
  field_step serialize r (f, v) = Some r' →
  isSecret f || isNilPtr v = true
  ∨ (Exported f = true
     ∧ (hasOmitempty f && equalsZero v = true
        ∨ is_Some (render serialize v))).
Proof.
  rewrite field_step_spec.
  destruct (isSecret f || isNilPtr v); [by left|].
  destruct (Exported f); [|done]. right. split; [done|].
  destruct (hasOmitempty f && equalsZero v); [by left|]. right.
  destruct (render serialize v); [by eauto|done].
Qed.

Lemma fields_loop_Some_steps serialize r fs m :
  fields_loop serialize r fs = Some m →
  Forall (λ fv, ∃ r1 r2, field_step serialize r1 fv = Some r2) fs.
Proof.
  revert r. induction fs as [|fv fs IH]; intros r; simpl; [by constructor|].
  destruct (field_step serialize r fv) as [r1|] eqn:Hstep; [|done].
  simpl. intros Hloop. constructor; [by eauto|by eapply IH].
Qed.

Lemma Serializable_ptr t fields :
  Serializable (VPtr t (Some (VStruct fields))) ↔ Serializable (VStruct fields).
Proof. split; inversion 1; subst; by econstructor. Qed.

Lemma serialize_is_Some_iff obj :
  is_Some (serializeWithSecretFilter obj) ↔ Serializable obj.
Proof.
  set (Q := λ v, is_Some (serializeWithSecretFilter v) ↔ Serializable v).
  enough (Q obj ∧ Q (Interface obj)
          ∧ ∀ t e, obj = VPtr t (Some e) → Q (Interface e)) as [HQ _]
    by apply HQ.
  assert (∀ v, structOf v = None → Q v) as Hnone.
  { intros v Hv. unfold Q. rewrite serializeWithSecretFilter_eq, Hv. simpl.
    split; [by intros [??]|]. inversion 1; congruence. }
  induction obj as [b|n|n|s|t|t xs _|k t|k t kvs _|t|t p IH| |d IH|fs IH]
    using Value_nested_ind; try (by split_and!; try apply Hnone).
  - destruct IH as (Hp & Hip & _). split_and!.
    + destruct p; try by apply Hnone.
      unfold Q. rewrite Serializable_ptr. apply Hp.
    + destruct p; try by apply Hnone.
      unfold Q. simpl. rewrite Serializable_ptr. apply Hp.
    + by intros ?? [= _ ->].
  - destruct IH as (Hd & _). split_and!; [by apply Hnone|done|done].
  - assert (Q (VStruct fs)) as HQ; [|by split_and!].
    unfold Q. rewrite serialize_struct. split.
    + intros [m Hm]. econstructor; [done|].
      apply fields_loop_Some_steps in Hm.
      rewrite Forall_forall in IH, Hm. apply Forall_forall.
      intros [f v] Hin. destruct (Hm _ Hin) as (r1 & r2 & Hstep).
      destruct (IH _ Hin) as (Hv & _ & Hptr). simpl in *.
      apply field_step_Some_inv in Hstep as [Hskip|[Hex [Homit|Hrend]]].
      * by apply FieldSerializable_skipped.
      * by apply FieldSerializable_omitted.
      * destruct v as [| | | | | |t' [e|]| |fs']; simpl in Hrend;
          try (by apply FieldSerializable_value).
        -- apply FieldSerializable_ptr; [done|].
           apply (Hptr _ _ eq_refl). by apply fmap_is_Some in Hrend.
        -- apply FieldSerializable_struct; [done|done|].
           apply Hv. by apply fmap_is_Some in Hrend.
    + inversion 1 as [? ? Hs Hfs]; subst. simpl in Hs. injection Hs as <-.
      apply fields_loop_is_Some.
      rewrite Forall_forall in IH, Hfs. apply Forall_forall.
      intros [f v] Hin r. destruct (IH _ Hin) as (Hv & _ & Hptr). simpl in *.
      pose proof (Hfs _ Hin) as Hok. rewrite field_step_spec.
      inversion Hok as [?? Hskip|?? Hex Homit|?? Hex Hs Hp|?? Hex Hs Hser
                        |??? Hex Hser]; subst.
      * rewrite Hskip. by eauto.
      * destruct (_ || _); [by eauto|]. rewrite Hex, Homit. by eauto.
      * destruct (_ || _); [by eauto|]. rewrite Hex.
        destruct (_ && _); [by eauto|].
        by destruct v as [| | | | | |? [?|]| |]; simpl; eauto.
      * destruct (_ || _); [by eauto|]. rewrite Hex.
        destruct (_ && _); [by eauto|].
        destruct v; try done. apply Hv in Hser as [m' Hm'].
        simpl. rewrite serialize_struct in Hm'. rewrite Hm'. simpl. by eauto.
      * destruct (_ || _); [by eauto|]. rewrite Hex.
        destruct (_ && _); [by eauto|].
        apply (Hptr _ _ eq_refl) in Hser as [m' Hm'].
        simpl. rewrite Hm'. simpl. by eauto.
Qed.

(** X1.  The filter returns exactly on the values that are
    [Serializable]: a struct, or a pointer to one, every field of
    which is secret, a nil pointer, or exported and then omitted,
    stored as it is, or a struct or pointer the same holds for. *)
Theorem filter_returns_iff_serializable (obj : Value) :
  serializeWithSecretFilter obj ≠ None ↔ Serializable obj.
Proof.
  rewrite <-serialize_is_Some_iff. split.
  - intros Hne. by destruct (serializeWithSecretFilter obj); eauto.
  - by intros [m ->].
Qed.

(** X2.  A field that is not exported makes the filter panic, wherever
    it stands in the struct, unless it is secret or a nil pointer;
    then it is passed over like an exported one. *)
Theorem filter_panics_on_unexported_field
    (fs1 fs2 : list (StructField * Value)) (f : StructField) (v : Value) :
  Exported f = false →
  (Get (Tag f) "secret" ≠ "true" → IsNil v = false ∨ KindOf v ≠ reflect.Ptr →
   serializeWithSecretFilter (VStruct (fs1 ++ (f, v) :: fs2)) = None)
  ∧ (Get (Tag f) "secret" = "true" ∨ (∃ t, v = VPtr t None) →
     serializeWithSecretFilter (VStruct (fs1 ++ (f, v) :: fs2)) =
     serializeWithSecretFilter (VStruct (fs1 ++ fs2))).
Proof.
  intros Hex. split.
  - intros Hsecret Hnil.
    destruct (serializeWithSecretFilter _) as [m|] eqn:Hm; [|done].
    exfalso. assert (is_Some (serializeWithSecretFilter
                                (VStruct (fs1 ++ (f, v) :: fs2)))) as Hs
      by eauto.
    apply serialize_is_Some_iff in Hs.
    inversion Hs as [?? Hfs Hall]; subst. simpl in Hfs. injection Hfs as <-.
    rewrite Forall_app, Forall_cons in Hall. destruct Hall as (_ & Hf & _).
    inversion Hf as [?? Hskip|?? Hex'|?? Hex'|?? Hex'|??? Hex']; subst;
      try congruence.
    apply orb_true_iff in Hskip as [Hs'|Hn].
    + unfold isSecret in Hs'. by apply bool_decide_eq_true in Hs'.
    + unfold isNilPtr in Hn. apply andb_true_iff in Hn as [Hk Hn].
      apply bool_decide_eq_true in Hk. destruct Hnil; congruence.
  - intros Hskip. rewrite !serialize_struct, !fields_loop_app. simpl.
    destruct (fields_loop _ _ fs1) as [r|]; simpl; [|done].
    rewrite field_step_spec.
    assert (isSecret f || isNilPtr v = true) as ->; [|done].
    destruct Hskip as [Hs|[t ->]].
    + unfold isSecret. by rewrite bool_decide_eq_true_2.
    + by rewrite orb_true_r.
Qed.

Lemma filter_panics_on_unexported_field_witness :
  serializeWithSecretFilter
    (VStruct [(jsonField "Host" "host", VString "a");
              (mkField "token" false [("json", "token")], VString "")])
  = None.
Proof.
  refine (proj1 (filter_panics_on_unexported_field
                   [(jsonField "Host" "host", VString "a")] []
                   (mkField "token" false [("json", "token")]) (VString "")
                   eq_refl) _ _).
  - discriminate.
  - by left.
Defined.

(** ** The order of the fields *)

Lemma field_step_is_Some_indep serialize r r' fv :
  is_Some (field_step serialize r fv) → is_Some (field_step serialize r' fv).
Proof.
  destruct fv as [f v]. rewrite !field_step_spec.
  destruct (_ || _); [by eauto|]. destruct (Exported f); [|done].
  destruct (_ && _); [by eauto|].
  destruct (render serialize v); simpl; [by eauto|done].
Qed.

Lemma fields_loop_is_Some_iff serialize r fs :
  is_Some (fields_loop serialize r fs)
  ↔ Forall (λ fv, is_Some (field_step serialize ∅ fv)) fs.
Proof.
  split.
  - intros [m Hm]. apply fields_loop_Some_steps in Hm.
    eapply Forall_impl; [exact Hm|]. intros fv (r1 & r2 & Hstep).
    apply (field_step_is_Some_indep _ r1). by eauto.
  - intros Hfs. apply fields_loop_is_Some.
    eapply Forall_impl; [exact Hfs|]. intros fv Hs r'.
    exact (field_step_is_Some_indep _ _ _ _ Hs).
Qed.

Lemma renderedKeys_later fs1 fv fs2 :
  rendered fv = true → NoDup (renderedKeys (fs1 ++ fv :: fs2)) →
  Forall (λ fv', rendered fv' = true → jsonKey fv'.1 ≠ jsonKey fv.1) fs2.
Proof. apply NoDup_keys_later. Qed.

(** With distinct keys, the entries are the renderings of the fields
    that get one. *)
Lemma fields_loop_lookup_iff serialize fs m k a :
  fields_loop serialize ∅ fs = Some m →
  NoDup (renderedKeys fs) →
  m !! k = Some a
  ↔ ∃ fv, fv ∈ fs ∧ rendered fv = true ∧ jsonKey fv.1 = k
          ∧ render serialize fv.2 = Some a.
Proof.
  intros Hm Hnd. split.
  - intros Hk.
    destruct (fields_loop_lookup _ _ _ _ _ _ Hm Hk) as [?|Hfv]; [done|].
    exact Hfv.
  - intros (fv & Hin & Hrend & <- & Ha).
    apply list_elem_of_split in Hin as (fs1 & fs2 & ->).
    destruct (fields_loop_lookup_last _ _ _ _ _ _ Hm Hrend)
      as (a' & Ha' & Hk); [by eapply renderedKeys_later|].
    congruence.
Qed.

(** X3.  When the fields that get an entry have distinct keys, the
    result does not depend on the order in which the struct declares
    its fields. *)
Theorem filter_ignores_field_order (fs fs' : list (StructField * Value)) :
  fs ≡ₚ fs' →
  NoDup (renderedKeys fs) →
  serializeWithSecretFilter (VStruct fs) = serializeWithSecretFilter (VStruct fs').
Proof.
  intros Hperm Hnd. rewrite !serialize_struct.
  assert (NoDup (renderedKeys fs')) as Hnd'.
  { unfold renderedKeys in *. by rewrite <-Hperm. }
  destruct (fields_loop _ ∅ fs) as [m|] eqn:Hm,
           (fields_loop _ ∅ fs') as [m'|] eqn:Hm'.
  - f_equal. apply map_eq. intros k. apply option_eq. intros a.
    rewrite (fields_loop_lookup_iff _ _ _ _ _ Hm Hnd).
    rewrite (fields_loop_lookup_iff _ _ _ _ _ Hm' Hnd').
    by setoid_rewrite Hperm.
  - assert (is_Some (fields_loop serializeWithSecretFilter ∅ fs')) as [? ?];
      [|congruence].
    apply fields_loop_is_Some_iff. rewrite <-Hperm.
    apply (fields_loop_is_Some_iff _ ∅). by eauto.
  - assert (is_Some (fields_loop serializeWithSecretFilter ∅ fs)) as [? ?];
      [|congruence].
    apply fields_loop_is_Some_iff. rewrite Hperm.
    apply (fields_loop_is_Some_iff _ ∅). by eauto.
  - done.
Qed.

Lemma filter_ignores_field_order_witness :
  serializeWithSecretFilter
    (VStruct [(jsonField "Host" "host,omitempty", VString "example.com");
              (jsonField "ReadAhead" "readahead", VBool true)])
  = serializeWithSecretFilter
      (VStruct [(jsonField "ReadAhead" "readahead", VBool true);
                (jsonField "Host" "host,omitempty", VString "example.com")]).
Proof.
  apply filter_ignores_field_order.
  - apply perm_swap.
  - vm_compute. apply NoDup_cons. split.
    + intros Hin. apply elem_of_cons in Hin as [Heq|Hin]; [discriminate|].
      by apply elem_of_nil in Hin.
    + apply NoDup_cons. split; [apply not_elem_of_nil|apply NoDup_nil_2].
Defined.

(** ** The keys of the result *)

Lemma fields_loop_dom serialize r fs m :
  fields_loop serialize r fs = Some m →
  dom m = dom r ∪ list_to_set (renderedKeys fs).
Proof.
  revert r. induction fs as [|fv fs IH]; intros r; simpl.
  { intros [= ->]. unfold renderedKeys. simpl. by rewrite (right_id_L ∅ (∪)). }
  destruct (field_step serialize r fv) as [r1|] eqn:Hstep; [|done].
  simpl. intros Hloop. rewrite (IH _ Hloop). unfold renderedKeys.
  rewrite filter_cons. destruct (rendered fv) eqn:Hrend.
  - destruct (field_step_rendered _ _ _ _ Hrend Hstep) as (a & _ & ->).
    rewrite decide_True by done. rewrite fmap_cons, dom_insert_L. simpl.
    rewrite (comm_L (∪) {[jsonKey fv.1]} (dom r)).
    by rewrite (assoc_L (∪)).
  - rewrite (field_step_not_rendered _ _ _ _ Hrend Hstep).
    by rewrite decide_False by congruence.
Qed.

Lemma size_list_to_set_length (l : list string) :
  (size (list_to_set l : gset string) ≤ length l)%nat.
Proof.
  induction l as [|x l IH].
  { by rewrite list_to_set_nil, size_empty. }
  rewrite list_to_set_cons, size_union_alt, size_singleton. simpl.
  assert (size (list_to_set l ∖ {[x]} : gset string)
          ≤ size (list_to_set l : gset string))%nat; [|lia].
  apply subseteq_size. intros y Hy. by apply elem_of_difference in Hy as [? _].
Qed.

(** X4.  The keys of the result are the keys of the fields that get
    an entry, no more and no fewer, so the result has at most as many
    entries as the struct has fields. *)
Theorem filter_result_keys (obj : Value) (fs : list (StructField * Value))
    (m : gmap string Any) :
  structOf obj = Some fs →
  serializeWithSecretFilter obj = Some m →
  dom m = list_to_set (renderedKeys fs)
  ∧ (size m ≤ length fs)%nat.
Proof.
  intros Hobj Hm. rewrite serializeWithSecretFilter_eq, Hobj in Hm.
  simpl in Hm. apply fields_loop_dom in Hm.
  rewrite dom_empty_L, (left_id_L ∅ (∪)) in Hm.
  split; [done|].
  rewrite <-size_dom, Hm.
  etrans; [apply size_list_to_set_length|]. unfold renderedKeys.
  rewrite length_fmap. apply length_filter.
Qed.

Lemma filter_result_keys_witness :
  dom ({[ "readahead" := AValue (VBool false);
          "host" := AValue (VString "example.com") ]} : gmap string Any)
  = list_to_set (renderedKeys
      (match BackendConfig_value scenarioBackend with
       | VStruct fs => fs | _ => [] end)).
Proof.
  refine (proj1 (filter_result_keys (BackendConfig_value scenarioBackend)
                   _ _ eq_refl _)).
  vm_compute. reflexivity.
Defined.

(** X5.  A slice or a map that is not nil is never omitted, tagged
    [omitempty] or not, empty or not: unless the field is secret, its
    value is stored as it is. *)
Theorem filter_keeps_non_nil_slices_and_maps (obj : Value)
    (fs1 fs2 : list (StructField * Value)) (f : StructField) (v : Value)
    (m : gmap string Any) :
  structOf obj = Some (fs1 ++ (f, v) :: fs2) →
  serializeWithSecretFilter obj = Some m →
  Get (Tag f) "secret" ≠ "true" →
  (∃ t xs, v = VSlice t (Some xs)) ∨ (∃ k t kvs, v = VMap k t (Some kvs)) →
  Forall (λ fv', rendered fv' = true → jsonKey fv'.1 ≠ jsonKey f) fs2 →
  m !! jsonKey f = Some (AValue v).
Proof.
  intros Hobj Hm Hsecret Hv Hlater.
  rewrite serializeWithSecretFilter_eq, Hobj in Hm. simpl in Hm.
  assert (rendered (f, v) = true) as Hrend.
  { unfold rendered, isSecret. simpl.
    rewrite (bool_decide_eq_false_2 _ Hsecret).
    destruct Hv as [(t & xs & ->)|(k & t & kvs & ->)].
    - rewrite equalsZero_slice. by rewrite andb_false_r.
    - rewrite equalsZero_map. by rewrite andb_false_r. }
  destruct (fields_loop_lookup_last _ _ _ _ _ _ Hm Hrend Hlater)
    as (a & Ha & Hk).
  simpl in Ha, Hk. rewrite Hk.
  by destruct Hv as [(t & xs & ->)|(k & t & kvs & ->)]; simplify_eq/=.
Qed.

Lemma filter_keeps_non_nil_slices_and_maps_witness :
  ({[ "mirrors" := AValue (VSlice MirrorConfig_type (Some [])) ]}
   : gmap string Any) !! "mirrors"
  = Some (AValue (VSlice MirrorConfig_type (Some []))).
Proof.
  refine (filter_keeps_non_nil_slices_and_maps
            (VStruct [(jsonField "Mirrors" "mirrors,omitempty",
                       VSlice MirrorConfig_type (Some []))])
            [] [] (jsonField "Mirrors" "mirrors,omitempty")
            (VSlice MirrorConfig_type (Some [])) _ eq_refl _ _ _ _).
  - vm_compute. reflexivity.
  - discriminate.
  - left. by eexists _, _.
  - apply Forall_nil_2.
Defined.


(** ** The redacted configuration structs *)

Lemma NoDup_fmap_elem_eq {A B} (g : A → B) (l : list A) (x y : A) :
  NoDup (g <$> l) → x ∈ l → y ∈ l → g x = g y → x = y.
Proof.
  intros Hnd Hx Hy Heq.
  apply list_elem_of_split in Hx as (l1 & l2 & ->).
  rewrite fmap_app, fmap_cons in Hnd.
  apply NoDup_app in Hnd as (_ & Hdisj & Hnd).
  apply NoDup_cons in Hnd as [Hnin _].
  apply elem_of_app in Hy as [Hy|Hy].
  - exfalso. apply (Hdisj (g y)).
    + apply list_elem_of_fmap. by exists y.
    + rewrite <-Heq. apply list_elem_of_here.
  - apply elem_of_cons in Hy as [->|Hy]; [done|].
    exfalso. apply Hnin. rewrite Heq. apply list_elem_of_fmap. by exists y.
Qed.

(** In a struct whose fields have distinct keys, the entry under the
    key of a field is the rendering of that field, or none when the
    field gets no entry. *)
Lemma fields_loop_lookup_field serialize fs m f v :
  fields_loop serialize ∅ fs = Some m →
  NoDup ((λ fv, jsonKey fv.1) <$> fs) →
  (f, v) ∈ fs →
  m !! jsonKey f = if rendered (f, v) then render serialize v else None.
Proof.
  intros Hm Hnd Hin. destruct (rendered (f, v)) eqn:Hrend.
  - pose proof Hin as Hin'.
    apply list_elem_of_split in Hin' as (fs1 & fs2 & ->).
    destruct (fields_loop_lookup_last _ _ _ _ _ _ Hm Hrend)
      as (a & Ha & Hk); [|simpl in *; congruence].
    apply Forall_forall. intros fv' Hin' _ Heq.
    assert (fv' = (f, v)) as ->.
    { eapply (NoDup_fmap_elem_eq _ _ _ _ Hnd); [|done|done].
      apply elem_of_app. right. by apply list_elem_of_further. }
    rewrite fmap_app, fmap_cons in Hnd.
    apply NoDup_app in Hnd as (_ & _ & Hnd).
    apply NoDup_cons in Hnd as [Hnin _]. apply Hnin.
    apply list_elem_of_fmap. by exists (f, v).
  - eapply fields_loop_lookup_None; [exact Hm|done|].
    apply Forall_forall. intros fv' Hin' Hrend' Heq.
    assert (fv' = (f, v)) as -> by by eapply (NoDup_fmap_elem_eq _ _ _ _ Hnd).
    congruence.
Qed.

Lemma rendered_omitempty f v :
  isSecret f = false → hasOmitempty f = true → isNilPtr v = false →
  rendered (f, v) = negb (equalsZero v).
Proof. unfold rendered. simpl. by intros -> -> ->. Qed.

Lemma equalsZero_string s : equalsZero (VString s) = bool_decide (s = "").
Proof. unfold equalsZero. simpl. by apply bool_decide_ext. Qed.

Lemma equalsZero_int n : equalsZero (VInt n) = bool_decide (n = 0%Z).
Proof. unfold equalsZero. simpl. by apply bool_decide_ext. Qed.

Lemma equalsZero_uint8 n : equalsZero (VUint8 n) = bool_decide (n = 0%Z).
Proof. unfold equalsZero. simpl. by apply bool_decide_ext. Qed.

Lemma equalsZero_bool b : equalsZero (VBool b) = negb b.
Proof. unfold equalsZero. simpl. by destruct b. Qed.

Lemma equalsZero_proxy p :
  equalsZero (ProxyConfig_value p) = bool_decide (p = emptyProxy).
Proof.
  destruct p as [u f pu ci uh]. unfold equalsZero, emptyProxy. cbn.
  rewrite !StructField_eqb_refl. cbn.
  apply Bool.eq_true_iff_eq.
  rewrite !andb_true_iff, !bool_decide_eq_true. split.
  - intros (<- & <- & <- & <- & <- & _). done.
  - intros [= -> -> -> -> ->]. done.
Qed.

(** Reads the entry of the field [f] holding [v] off the struct the
    loop ran on. *)
Ltac field_entry f v :=
  match goal with
  | Hm : fields_loop _ ∅ ?fs = Some ?m, Hnd : NoDup _ |- _ =>
      etrans;
      [ exact (fields_loop_lookup_field _ fs m f v Hm Hnd
                 ltac:(repeat first [ apply list_elem_of_here
                                    | apply list_elem_of_further ]))
      | ]
  end.

Ltac omitempty_entry :=
  rewrite rendered_omitempty by reflexivity;
  rewrite ?equalsZero_string, ?equalsZero_int, ?equalsZero_uint8,
    ?equalsZero_bool, ?equalsZero_proxy;
  unfold stringEntry, intEntry, boolEntry;
  repeat (case_bool_decide || case_decide); simpl; try done.

Ltac closed_NoDup := apply (bool_decide_unpack _); vm_compute; exact I.

Lemma ProxyConfig_entries p m :
  serializeWithSecretFilter (ProxyConfig_value p) = Some m →
  m !! "url" = stringEntry (proxy_URL p)
  ∧ m !! "fallback" = Some (AValue (VBool (proxy_Fallback p)))
  ∧ m !! "ping_url" = stringEntry (proxy_PingURL p)
  ∧ m !! "check_interval" = intEntry (proxy_CheckInterval p)
  ∧ m !! "use_http" = boolEntry (proxy_UseHTTP p).
Proof.
  unfold ProxyConfig_value. rewrite serialize_struct. intros Hm.
  match type of Hm with
  | fields_loop _ _ ?fs = _ =>
      assert (NoDup ((λ fv, jsonKey fv.1) <$> fs)) as Hnd by closed_NoDup
  end.
  split_and!.
  - field_entry (jsonField "URL" "url,omitempty") (VString (proxy_URL p)).
    omitempty_entry.
  - field_entry (jsonField "Fallback" "fallback") (VBool (proxy_Fallback p)).
    done.
  - field_entry (jsonField "PingURL" "ping_url,omitempty")
      (VString (proxy_PingURL p)).
    omitempty_entry.
  - field_entry (jsonField "CheckInterval" "check_interval,omitempty")
      (VInt (proxy_CheckInterval p)).
    omitempty_entry.
  - field_entry (jsonField "UseHTTP" "use_http,omitempty")
      (VBool (proxy_UseHTTP p)).
    omitempty_entry. by destruct (proxy_UseHTTP p).
Qed.

(** X6.  The redacted form of a [BackendConfig]: [readahead] is always
    there; every other field that is not a credential is there
    exactly when it is not the zero value of its type, the mirrors
    when the slice is not nil and the proxy, as a nested map, when it
    is not the zero struct; and there is no other key. *)
Theorem redacted_backend_entries (c : BackendConfig) :
  ∃ m,
    serializeWithSecretFilter (BackendConfig_value c) = Some m
    ∧ m !! "blob_file" = stringEntry (BlobFile c)
    ∧ m !! "dir" = stringEntry (Dir c)
    ∧ m !! "readahead" = Some (AValue (VBool (ReadAhead c)))
    ∧ m !! "readahead_sec" = intEntry (ReadAheadSec c)
    ∧ m !! "host" = stringEntry (Host c)
    ∧ m !! "repo" = stringEntry (Repo c)
    ∧ m !! "blob_url_scheme" = stringEntry (BlobURLScheme c)
    ∧ m !! "blob_redirected_host" = stringEntry (BlobRedirectedHost c)
    ∧ m !! "mirrors" =
      (λ ms, AValue (VSlice MirrorConfig_type
                       (Some (MirrorConfig_value <$> ms)))) <$> Mirrors c
    ∧ m !! "endpoint" = stringEntry (EndPoint c)
    ∧ m !! "bucket_name" = stringEntry (BucketName c)
    ∧ m !! "object_prefix" = stringEntry (ObjectPrefix c)
    ∧ m !! "scheme" = stringEntry (Scheme c)
    ∧ m !! "skip_verify" = boolEntry (SkipVerify c)
    ∧ m !! "proxy" =
      (if decide (Proxy c = emptyProxy) then None
       else AMap <$> serializeWithSecretFilter (ProxyConfig_value (Proxy c)))
    ∧ m !! "timeout" = intEntry (Timeout c)
    ∧ m !! "connect_timeout" = intEntry (ConnectTimeout c)
    ∧ m !! "retry_limit" = intEntry (RetryLimit c)
    ∧ ∀ k, k ∉ backendKeys → m !! k = None.
Proof.
  destruct (BackendConfig_serializes c) as [m Hm]. exists m.
  split; [done|].
  unfold BackendConfig_value in Hm. rewrite serialize_struct in Hm.
  match type of Hm with
  | fields_loop _ _ ?fs = _ =>
      assert (NoDup ((λ fv, jsonKey fv.1) <$> fs)) as Hnd by closed_NoDup
  end.
  split_and!.
  - field_entry (jsonField "BlobFile" "blob_file,omitempty")
      (VString (BlobFile c)). omitempty_entry.
  - field_entry (jsonField "Dir" "dir,omitempty") (VString (Dir c)).
    omitempty_entry.
  - field_entry (jsonField "ReadAhead" "readahead") (VBool (ReadAhead c)).
    done.
  - field_entry (jsonField "ReadAheadSec" "readahead_sec,omitempty")
      (VInt (ReadAheadSec c)). omitempty_entry.
  - field_entry (jsonField "Host" "host,omitempty") (VString (Host c)).
    omitempty_entry.
  - field_entry (jsonField "Repo" "repo,omitempty") (VString (Repo c)).
    omitempty_entry.
  - field_entry (jsonField "BlobURLScheme" "blob_url_scheme,omitempty")
      (VString (BlobURLScheme c)). omitempty_entry.
  - field_entry
      (jsonField "BlobRedirectedHost" "blob_redirected_host,omitempty")
      (VString (BlobRedirectedHost c)). omitempty_entry.
  - field_entry (jsonField "Mirrors" "mirrors,omitempty")
      (VSlice MirrorConfig_type (map MirrorConfig_value <$> Mirrors c)).
    rewrite rendered_omitempty by by destruct (Mirrors c).
    destruct (Mirrors c) as [ms|]; cbn [fmap option_fmap option_map];
      [|done].
    by rewrite equalsZero_slice.
  - field_entry (jsonField "EndPoint" "endpoint,omitempty")
      (VString (EndPoint c)). omitempty_entry.
  - field_entry (jsonField "BucketName" "bucket_name,omitempty")
      (VString (BucketName c)). omitempty_entry.
  - field_entry (jsonField "ObjectPrefix" "object_prefix,omitempty")
      (VString (ObjectPrefix c)). omitempty_entry.
  - field_entry (jsonField "Scheme" "scheme,omitempty") (VString (Scheme c)).
    omitempty_entry.
  - field_entry (jsonField "SkipVerify" "skip_verify,omitempty")
      (VBool (SkipVerify c)).
    omitempty_entry. by destruct (SkipVerify c).
  - field_entry (jsonField "Proxy" "proxy,omitempty")
      (ProxyConfig_value (Proxy c)).
    rewrite rendered_omitempty by reflexivity. rewrite equalsZero_proxy.
    by case_bool_decide; case_decide.
  - field_entry (jsonField "Timeout" "timeout,omitempty") (VInt (Timeout c)).
    omitempty_entry.
  - field_entry (jsonField "ConnectTimeout" "connect_timeout,omitempty")
      (VInt (ConnectTimeout c)). omitempty_entry.
  - field_entry (jsonField "RetryLimit" "retry_limit,omitempty")
      (VInt (RetryLimit c)). omitempty_entry.
  - intros k Hk. eapply fields_loop_lookup_None; [exact Hm|done|].
    field_facts.
    all: intros Hrend Heq; simpl in Heq;
      first [ by (unfold rendered in Hrend; simpl in Hrend)
            | apply Hk; rewrite <-Heq;
              apply (bool_decide_unpack _); vm_compute; exact I ].
Qed.

Lemma redacted_backend_entries_witness :
  ∃ m,
    serializeWithSecretFilter (BackendConfig_value scenarioBackend) = Some m
    ∧ m !! "host" = Some (AValue (VString "example.com"))
    ∧ m !! "auth" = None.
Proof.
  destruct (redacted_backend_entries scenarioBackend)
    as (m & Hm & _ & _ & _ & _ & Hhost & Hrest).
  exists m. split_and!; [exact Hm|exact Hhost|].
  do 13 destruct Hrest as [_ Hrest]. apply Hrest.
  apply (bool_decide_unpack _). vm_compute. exact I.
Defined.


Lemma field_step_always serialize r f v a :
  Exported f = true → isSecret f = false → hasOmitempty f = false →
  isNilPtr v = false → render serialize v = Some a →
  field_step serialize r (f, v) = Some (<[jsonKey f := a]> r).
Proof.
  intros Hex Hs Ho Hn Ha. by rewrite field_step_spec, Hs, Hn, Hex, Ho, Ha.
Qed.

(** X7.  The redacted form of a [DeviceConfig]: [backend] and [cache]
    are always there as nested maps; the backend type, the cache type,
    the work directory and the index-map switch are there also when
    empty or false; [compressed] is there only when true; the backend
    configuration is the redacted form of the [BackendConfig]. *)
Theorem redacted_device_entries (d : DeviceConfig) :
  ∃ backend,
    serializeWithSecretFilter (BackendConfig_value (Config d)) = Some backend
    ∧ serializeWithSecretFilter (DeviceConfig_value d)
      = Some (deviceMap d backend).
Proof.
  destruct (BackendConfig_serializes (Config d)) as [mbc Hmbc].
  exists mbc. split; [done|].
  assert (serializeWithSecretFilter
            (VStruct
               [(jsonField "WorkDir" "work_dir", VString (WorkDir (Cache d)));
                (jsonField "DisableIndexedMap" "disable_indexed_map",
                 VBool (DisableIndexedMap (Cache d)))])
          = Some (cacheConfigMap (Cache d))) as Hcc.
  { rewrite serialize_struct. cbn [fields_loop].
    rewrite (field_step_always _ _ _ _ (AValue (VString (WorkDir (Cache d)))))
      by reflexivity.
    cbn [mbind option_bind].
    by rewrite (field_step_always _ _ _ _
                  (AValue (VBool (DisableIndexedMap (Cache d)))))
      by reflexivity. }
  assert (serializeWithSecretFilter
            (VStruct
               [(jsonField "CacheType" "type", VString (CacheType (Cache d)));
                (jsonField "Compressed" "compressed,omitempty",
                 VBool (Compressed (Cache d)));
                (jsonField "Config" "config",
                 VStruct
                   [(jsonField "WorkDir" "work_dir",
                     VString (WorkDir (Cache d)));
                    (jsonField "DisableIndexedMap" "disable_indexed_map",
                     VBool (DisableIndexedMap (Cache d)))])])
          = Some (cacheMap (Cache d))) as Hc.
  { rewrite serialize_struct. cbn [fields_loop].
    rewrite (field_step_always _ _ _ _
               (AValue (VString (CacheType (Cache d))))) by reflexivity.
    cbn [mbind option_bind]. unfold cacheMap.
    rewrite field_step_spec.
    destruct (Compressed (Cache d)); cbn [mbind option_bind].
    - change (Some (<["compressed":=AValue (VBool true)]>
                      (<["type":=AValue (VString (CacheType (Cache d)))]> ∅))
              ≫= (λ r, field_step serializeWithSecretFilter r
                         (jsonField "Config" "config",
                          VStruct
                            [(jsonField "WorkDir" "work_dir",
                              VString (WorkDir (Cache d)));
                             (jsonField "DisableIndexedMap"
                                "disable_indexed_map",
                              VBool (DisableIndexedMap (Cache d)))])
                       ≫= Some)
              = Some (<["config":=AMap (cacheConfigMap (Cache d))]>
                        (<["compressed":=AValue (VBool true)]>
                           (<["type":=AValue
                                        (VString (CacheType (Cache d)))]> ∅)))).
      cbn [mbind option_bind].
      by rewrite (field_step_always _ _ _ _ (AMap (cacheConfigMap (Cache d))))
        by first [reflexivity | cbn [render]; by rewrite Hcc].
    - change (Some (<["type":=AValue (VString (CacheType (Cache d)))]> ∅)
              ≫= (λ r, field_step serializeWithSecretFilter r
                         (jsonField "Config" "config",
                          VStruct
                            [(jsonField "WorkDir" "work_dir",
                              VString (WorkDir (Cache d)));
                             (jsonField "DisableIndexedMap"
                                "disable_indexed_map",
                              VBool (DisableIndexedMap (Cache d)))])
                       ≫= Some)
              = Some (<["config":=AMap (cacheConfigMap (Cache d))]>
                        (<["type":=AValue
                                     (VString (CacheType (Cache d)))]> ∅))).
      cbn [mbind option_bind].
      by rewrite (field_step_always _ _ _ _ (AMap (cacheConfigMap (Cache d))))
        by first [reflexivity | cbn [render]; by rewrite Hcc]. }
  assert (serializeWithSecretFilter
            (VStruct
               [(jsonField "BackendType" "type", VString (BackendType d));
                (jsonField "Config" "config", BackendConfig_value (Config d))])
          = Some (backendMap d mbc)) as Hb.
  { rewrite serialize_struct. cbn [fields_loop].
    rewrite (field_step_always _ _ _ _ (AValue (VString (BackendType d))))
      by reflexivity.
    cbn [mbind option_bind].
    by rewrite (field_step_always _ _ _ _ (AMap mbc))
      by first [reflexivity
               | unfold BackendConfig_value in *; cbn [render];
                 by rewrite Hmbc]. }
  unfold DeviceConfig_value. rewrite serialize_struct. cbn [fields_loop].
  rewrite (field_step_always _ _ _ _ (AMap (backendMap d mbc)))
    by first [reflexivity | cbn [render]; by rewrite Hb].
  cbn [mbind option_bind].
  by rewrite (field_step_always _ _ _ _ (AMap (cacheMap (Cache d))))
    by first [reflexivity | cbn [render]; by rewrite Hc].
Qed.


(** * More about [SupplementDaemonConfig] *)

Section SupplementerMore.
Context {KeyChain C : Type} {methods : DaemonConfig KeyChain C}.
Variable ParseImage : string → registry.Image + error.
Variable ConvertToVPCHost : string → string.
Variable GetMirrorsConfigDir : string.
Variable GetRegistryKeyChain :
  string → string → gmap string string → KeyChain.

Local Abbreviation W := (World KeyChain C).
Local Abbreviation run :=
  (SupplementDaemonConfig ParseImage ConvertToVPCHost GetMirrorsConfigDir
     GetRegistryKeyChain).

(** X8.  On a registry backend, when [UpdateMirrors] returns no error,
    the call returns [nil] and leaves the variant that [FillAuth],
    with the keychain of the host in use, makes of the variant that
    [Supplement], with that host and the parsed repository, makes of
    the variant [UpdateMirrors] left; the mutex is free again. *)
Theorem supplement_registry_success (info : SupplementInfoInterface) (w : W)
    (image : registry.Image) (c' : C) :
  configRWMutex w = false →
  ParseImage (GetImageID info) = inl image →
  (StorageBackend (variant w)).1 = backendTypeRegistry →
  let host :=
    if IsVPCRegistry info then ConvertToVPCHost (registry.Host image)
    else if decide (registry.Host image = "docker.io") then "index.docker.io"
    else registry.Host image in
  let keyChain :=
    GetRegistryKeyChain host (GetImageID info) (GetLabels info) in
  UpdateMirrors (variant w) GetMirrorsConfigDir host = (c', None) →
  ∃ w',
    run info w = Some (None, w')
    ∧ configRWMutex w' = false
    ∧ variant w' =
      FillAuth (Supplement c' host (registry.Repo image)
                  (GetSnapshotID info) (GetParams info)) keyChain.
Proof.
  intros Hfree Hparse Hkind host keyChain Hupdate.
  pose proof (supplement_registry_run ParseImage ConvertToVPCHost
                GetMirrorsConfigDir GetRegistryKeyChain info w image
                Hfree Hparse Hkind) as Hrun.
  cbv zeta in Hrun.
  change (effectiveHost ConvertToVPCHost info image) with host in Hrun.
  rewrite Hupdate in Hrun. eexists. split; [exact Hrun|]. done.
Qed.
End SupplementerMore.

Lemma supplement_registry_success_witness :
  ∃ w',
    runModel (exampleDevice "registry")
      (exampleInfo "docker.io/library/busybox:latest" false) = Some (None, w')
    ∧ configRWMutex w' = false
    ∧ (Host (Config (variant w')), Repo (Config (variant w')),
       Auth (Config (variant w')))
      = ("index.docker.io", "library/busybox", "dG9rZW4=").
Proof.
  destruct (supplement_registry_success
              (methods := DeviceVariant LoadMirrorsConfig_model)
              ParseImage_model ConvertToVPCHost_model "/etc/nydus/certs.d"
              GetRegistryKeyChain_model
              (exampleInfo "docker.io/library/busybox:latest" false)
              (mkWorld false (exampleDevice "registry") [])
              {| registry.Host := "docker.io";
                 registry.Repo := "library/busybox" |}
              _ eq_refl eq_refl eq_refl eq_refl) as (w' & Hrun & Hfree & Hv).
  exists w'. split_and!; [exact Hrun|exact Hfree|].
  rewrite Hv. reflexivity.
Defined.

(** * More about concurrent calls *)

Section ThreadHistory.
Context {KeyChain C : Type} {methods : DaemonConfig KeyChain C}.
Variable ParseImage : string → registry.Image + error.
Variable ConvertToVPCHost : string → string.
Variable GetMirrorsConfigDir : string.
Variable GetRegistryKeyChain :
  string → string → gmap string string → KeyChain.

Local Abbreviation callsOf :=
  (bodyCalls ParseImage ConvertToVPCHost GetMirrorsConfigDir
     GetRegistryKeyChain).
Local Abbreviation stepThread :=
  (step_thread ParseImage ConvertToVPCHost GetMirrorsConfigDir
     GetRegistryKeyChain).
Local Abbreviation stepSystem :=
  (step ParseImage ConvertToVPCHost GetMirrorsConfigDir
     GetRegistryKeyChain).
Local Abbreviation cell :=
  (cellInv ParseImage ConvertToVPCHost GetMirrorsConfigDir
     GetRegistryKeyChain).
Local Abbreviation upTo :=
  (callsUpTo ParseImage ConvertToVPCHost GetMirrorsConfigDir
     GetRegistryKeyChain).

(** A step of a call adds its calls to the history. *)
Lemma step_thread_history a info c p (s : Shared KeyChain C) t s' :
  cell a info c p (heap s) →
  stepThread (mkThread a info p) s = Some (t, s') →
  ∃ δ, history s' = history s ++ δ
       ∧ upTo info c (phase t) = upTo info c p ++ δ.
Proof.
  intros Hcell. unfold step_thread. simpl.
  destruct p as [| |ret|ret]; simpl in Hcell.
  - rewrite Hcell. simpl. unfold Lock, worldOf. simpl.
    destruct (mutex s); simpl; [done|].
    intros [= <- <-]. simpl. by exists [EvLock].
  - rewrite Hcell. simpl. unfold worldOf. rewrite body_frame. simpl.
    intros [= <- <-]. simpl. by eexists.
  - destruct Hcell as [-> Hcell]. rewrite Hcell. simpl.
    unfold Unlock, worldOf. simpl.
    destruct (mutex s); simpl; [|done].
    intros [= <- <-]. simpl. by exists [EvUnlock].
  - destruct Hcell as [-> Hcell]. by rewrite Hcell.
Qed.

Variables (a1 a2 : nat) (info1 info2 : SupplementInfoInterface).
Variables (c1 c2 : C) (h0 : gmap nat C) (tr : list (Event KeyChain)).
Hypothesis distinct : a1 ≠ a2.

Local Abbreviation invariant :=
  (Inv ParseImage ConvertToVPCHost GetMirrorsConfigDir GetRegistryKeyChain
     a1 a2 info1 info2 c1 c2 h0).
Local Abbreviation serial :=
  (serialHistory ParseImage ConvertToVPCHost GetMirrorsConfigDir
     GetRegistryKeyChain tr info1 info2 c1 c2).

Lemma step_serial σ σ' :
  invariant σ → serial σ → stepSystem σ σ' → serial σ'.
Proof.
  intros (Ht1 & Hr1 & Ht2 & Hr2 & Hc1 & Hc2 & Hmu & Hex & Hframe) Hser Hstep.
  destruct Hstep as [[[a i p] [a' i' p'] s] t s' Hstep
                    |[[a i p] [a' i' p'] s] t s' Hstep];
    cbn [first second shared phase target request] in *; subst.
  - destruct (step_thread_inv _ _ _ _ _ _ _ _ _ _ _ Hc1 Hstep)
      as (_ & _ & _ & _ & _ & Hlock & _).
    destruct (step_thread_history _ _ _ _ _ _ _ Hc1 Hstep)
      as (δ & Hhist & Hup).
    unfold serialHistory in *.
    cbn [first second shared phase target request] in *.
    rewrite Hhist, Hup.
    destruct Hser as [[Hh Hside]|[Hh Hside]].
    + destruct Hside as [[r ->]| ->]; [by destruct Hlock|].
      left. split; [|by right].
      simpl in *. rewrite ?app_nil_r in *. rewrite Hh.
      by rewrite <-?app_assoc.
    + destruct Hside as [[r ->]| ->].
      * right. split; [|by eauto]. rewrite Hh. by rewrite <-?app_assoc.
      * destruct Hlock as [Hfree _]. rewrite Hfree in Hmu.
        destruct p' as [| |r|r]; try done.
        -- left. split; [|by right].
           simpl in *. rewrite ?app_nil_r in *. by rewrite Hh.
        -- right. split; [|by eauto]. rewrite Hh. by rewrite <-?app_assoc.
  - destruct (step_thread_inv _ _ _ _ _ _ _ _ _ _ _ Hc2 Hstep)
      as (_ & _ & _ & _ & _ & Hlock & _).
    destruct (step_thread_history _ _ _ _ _ _ _ Hc2 Hstep)
      as (δ & Hhist & Hup).
    unfold serialHistory in *.
    cbn [first second shared phase target request] in *.
    rewrite Hhist, Hup.
    destruct Hser as [[Hh Hside]|[Hh Hside]].
    + destruct Hside as [[r ->]| ->].
      * left. split; [|by eauto]. rewrite Hh. by rewrite <-?app_assoc.
      * destruct Hlock as [Hfree _]. rewrite Hfree in Hmu.
        destruct p as [| |r|r]; try done.
        -- right. split; [|by right].
           simpl in *. rewrite ?app_nil_r in *. by rewrite Hh.
        -- left. split; [|by eauto]. rewrite Hh. by rewrite <-?app_assoc.
    + destruct Hside as [[r ->]| ->]; [by destruct Hlock|].
      right. split; [|by right].
      simpl in *. rewrite ?app_nil_r in *. rewrite Hh.
      by rewrite <-?app_assoc.
Qed.

Lemma nsteps_serial n σ σ' :
  invariant σ → serial σ → nsteps stepSystem n σ σ' →
  invariant σ' ∧ serial σ'.
Proof.
  intros HInv Hser Hsteps.
  induction Hsteps as [|n σ σ1 σ' Hstep _ IH]; [done|].
  apply IH.
  - by eapply step_Inv.
  - by eapply step_serial.
Qed.
End ThreadHistory.

(** X9.  In every state two calls on two distinct variants reach, at
    most one of them stands between its [Lock] and its [Unlock], and
    the mutex is held exactly then; the history is the calls of one of
    them followed by the calls of the other, which made none before
    the one returned.  So when both have returned the history holds
    the calls of the two one after the other, in either order, never
    interleaved. *)
Theorem concurrent_calls_are_serialized
    {KeyChain C : Type} {methods : DaemonConfig KeyChain C}
    (ParseImage : string → registry.Image + error)
    (ConvertToVPCHost : string → string) (GetMirrorsConfigDir : string)
    (GetRegistryKeyChain : string → string → gmap string string → KeyChain)
    (a1 a2 : nat) (info1 info2 : SupplementInfoInterface) (c1 c2 : C)
    (h : gmap nat C) (tr : list (Event KeyChain)) (n : nat)
    (σ : System KeyChain C) :
  let step :=
    step ParseImage ConvertToVPCHost GetMirrorsConfigDir
      GetRegistryKeyChain in
  let callsOf :=
    bodyCalls ParseImage ConvertToVPCHost GetMirrorsConfigDir
      GetRegistryKeyChain in
  a1 ≠ a2 → h !! a1 = Some c1 → h !! a2 = Some c2 →
  nsteps step n
    (mkSystem (mkThread a1 info1 AtLock) (mkThread a2 info2 AtLock)
       (mkShared false h tr)) σ →
  holdsMutex (phase (first σ)) && holdsMutex (phase (second σ)) = false
  ∧ mutex (shared σ)
    = holdsMutex (phase (first σ)) || holdsMutex (phase (second σ))
  ∧ serialHistory ParseImage ConvertToVPCHost GetMirrorsConfigDir
      GetRegistryKeyChain tr info1 info2 c1 c2 σ
  ∧ (finished σ →
     history (shared σ)
     = tr ++ (EvLock :: callsOf info1 c1 ++ [EvUnlock])
          ++ (EvLock :: callsOf info2 c2 ++ [EvUnlock])
     ∨ history (shared σ)
       = tr ++ (EvLock :: callsOf info2 c2 ++ [EvUnlock])
            ++ (EvLock :: callsOf info1 c1 ++ [EvUnlock])).
Proof.
  intros step callsOf Hne H1 H2 Hsteps.
  eapply (nsteps_serial ParseImage ConvertToVPCHost GetMirrorsConfigDir
            GetRegistryKeyChain a1 a2 info1 info2 c1 c2 h tr Hne)
    in Hsteps as [HInv Hser].
  2:{ by repeat split. }
  2:{ left. simpl. split; [by rewrite app_nil_r|by right]. }
  pose proof HInv as (_ & _ & _ & _ & _ & _ & Hmu & Hex & _).
  split_and!; [done|done|done|].
  intros [[r1 Hp1] [r2 Hp2]].
  destruct Hser as [[Hh _]|[Hh _]]; rewrite Hp1, Hp2 in Hh; [by left|by right].
Qed.

Lemma concurrent_calls_are_serialized_witness :
  ∃ σ,
    nsteps modelStep 2 modelSystem σ
    ∧ phase (second σ) = AtUnlock None
    ∧ holdsMutex (phase (first σ)) && holdsMutex (phase (second σ)) = false
    ∧ mutex (shared σ) = true.
Proof.
  eexists.
  match goal with
  | |- nsteps _ _ _ ?σ ∧ _ =>
      assert (nsteps modelStep 2 modelSystem σ) as Hsteps
  end.
  { unfold modelStep.
    eapply nsteps_l; [apply step_second; vm_compute; reflexivity|].
    eapply nsteps_l; [apply step_second; vm_compute; reflexivity|].
    apply nsteps_O. }
  split; [exact Hsteps|]. split; [reflexivity|].
  destruct (concurrent_calls_are_serialized
              (methods := DeviceVariant LoadMirrorsConfig_model)
              ParseImage_model ConvertToVPCHost_model "/etc/nydus/certs.d"
              GetRegistryKeyChain_model 1%nat 2%nat
              (exampleInfo "docker.io/library/busybox:latest" false)
              (exampleInfo "quay.io/app:v1" false)
              (exampleDevice "registry") (exampleDevice "registry")
              {[ 1%nat := exampleDevice "registry";
                 2%nat := exampleDevice "registry" ]}
              [] 2%nat _ ltac:(discriminate) eq_refl eq_refl Hsteps)
    as (Hex & Hmu & _).
  split; [exact Hex|exact Hmu].
Defined.

(** * The factory *)

Section FactoryFacts.
Context {Fscache Fuse : Type}.
Variable FsDriverFscache FsDriverFusedev : string.
Variable LoadFscacheConfig : string → option Fscache * option error.
Variable LoadFuseConfig : string → option Fuse * option error.
Variable Quote : string → string.

Local Abbreviation new :=
  (NewDaemonConfig FsDriverFscache FsDriverFusedev LoadFscacheConfig
     LoadFuseConfig Quote).

(** X10.  The factory returns a configuration exactly when it returns
    no error, whatever the loaders return: a configuration that comes
    with an error is dropped, and a nil pointer that comes without one
    is returned inside the interface.  It calls at most one loader,
    with the path it was given, and none exactly when the driver is
    neither of the two it knows. *)
Theorem factory_returns_config_or_error (fsDriver path : string) :
  let '(cfg, err, loaders) := new fsDriver path in
  (cfg = None ↔ err ≠ None)
  ∧ (length loaders ≤ 1)%nat
  ∧ (∀ call, call ∈ loaders → loaderPath call = path)
  ∧ (loaders = []
     ↔ fsDriver ≠ FsDriverFscache ∧ fsDriver ≠ FsDriverFusedev).
Proof.
  unfold NewDaemonConfig.
  assert (∀ call : LoaderCall,
            loaderPath call = path →
            ∀ call', call' ∈ [call] → loaderPath call' = path) as Hone.
  { intros call Hcall call' Hin.
    apply elem_of_cons in Hin as [->|Hin]; [done|].
    by apply elem_of_nil in Hin. }
  destruct (decide (fsDriver = FsDriverFscache)) as [Hf|Hf].
  { destruct (LoadFscacheConfig path) as [cfg [err|]]; simpl.
    all: repeat split; try done; try lia; try by apply Hone.
    all: by intros [? ?]. }
  destruct (decide (fsDriver = FsDriverFusedev)) as [Hu|Hu].
  { destruct (LoadFuseConfig path) as [cfg [err|]]; simpl.
    all: repeat split; try done; try lia; try by apply Hone.
    all: by intros [? ?]. }
  simpl. repeat split; try done; try lia.
  intros call Hin. by apply elem_of_nil in Hin.
Qed.

(** X11.  A driver the factory does not know gets an error that names
    it, quoted, and no loader is called; a driver it knows gets the
    error of its loader as it is, not wrapped, or else the pointer
    its loader returned. *)
Theorem factory_dispatch (fsDriver path : string) :
  (fsDriver ≠ FsDriverFscache → fsDriver ≠ FsDriverFusedev →
   ∃ e, new fsDriver path = (None, Some e, [])
        ∧ Error e = "unsupported, fs driver " +:+ Quote fsDriver)
  ∧ (fsDriver = FsDriverFscache →
     new fsDriver path =
     (match (LoadFscacheConfig path).2 with
      | Some _ => None
      | None => Some (FscacheDaemonConfigPtr (LoadFscacheConfig path).1)
      end, (LoadFscacheConfig path).2, [CallLoadFscacheConfig path]))
  ∧ (fsDriver ≠ FsDriverFscache → fsDriver = FsDriverFusedev →
     new fsDriver path =
     (match (LoadFuseConfig path).2 with
      | Some _ => None
      | None => Some (FuseDaemonConfigPtr (LoadFuseConfig path).1)
      end, (LoadFuseConfig path).2, [CallLoadFuseConfig path])).
Proof.
  unfold NewDaemonConfig. split_and!.
  - intros Hf Hu. rewrite !decide_False by done. by eexists.
  - intros Hf. rewrite decide_True by done.
    by destruct (LoadFscacheConfig path) as [cfg [err|]].
  - intros Hf Hu. rewrite decide_False, decide_True by done.
    by destruct (LoadFuseConfig path) as [cfg [err|]].
Qed.
End FactoryFacts.

Lemma factory_dispatch_witness :
  ∃ e,
    NewDaemonConfig (Fscache := unit) (Fuse := unit) "fscache" "fusedev"
      (λ _, (Some (), None)) (λ _, (Some (), None))
      (λ s, String.append "'" (String.append s "'"))
      "blockdev" "/etc/nydus/config.json"
    = (None, Some e, [])
    ∧ Error e = "unsupported, fs driver 'blockdev'".
Proof.
  refine (proj1 (factory_dispatch (Fscache := unit) (Fuse := unit)
                   "fscache" "fusedev"
                   (λ _, (Some (), None)) (λ _, (Some (), None))
                   (λ s, String.append "'" (String.append s "'"))
                   "blockdev" "/etc/nydus/config.json") _ _);
    discriminate.
Defined.

(** * The plugin *)

Section PluginFacts.
Context {Platform Snapshotter Other Rest : Type}.
Variable DefaultSpec : Platform.
Variable FillUpWithDefaults :
  SnapshotterConfig (Rest := Rest)
  → SnapshotterConfig (Rest := Rest) * option error.
Variable NewSnapshotter :
  SnapshotterConfig (Rest := Rest)
  → SnapshotterConfig (Rest := Rest) * (option Snapshotter * option error).

Local Abbreviation init :=
  (InitFn (Other := Other) DefaultSpec FillUpWithDefaults NewSnapshotter).

(** X12.  On every path on which it returns, with or without an
    error, the function has added the default platform once, at the
    end of the platforms of the context, and has left the root of the
    context as it was; it never returns both a snapshotter and an
    error. *)
Theorem plugin_init_adds_default_platform ic r :
  InitFn (Other := Other) DefaultSpec FillUpWithDefaults NewSnapshotter ic
  = Some r →
  ic_Platforms (context r) = ic_Platforms ic ++ [DefaultSpec]
  ∧ ic_Root (context r) = ic_Root ic
  ∧ (failure r ≠ None → returned r = None).
Proof.
  unfold InitFn. destruct (ic_Config ic) as [[cfg|]|o|]; try done.
  - destruct (FillUpWithDefaults _) as [filled [err|]].
    { by intros [= <-]. }
    destruct (NewSnapshotter filled) as [used [rs [err|]]];
      by intros [= <-].
  - by intros [= <-].
  - by intros [= <-].
Qed.

(** X13.  A root set in the configuration is never replaced: the
    configuration reaches [FillUpWithDefaults] as it is.  An empty
    root is replaced by the root of the context, the other fields
    kept, before [FillUpWithDefaults] is called.
    [FillUpWithDefaults] is the first call; [NewSnapshotter] follows
    only when it returned no error, and gets the configuration it
    left. *)
Theorem plugin_init_root_default ic cfg r :
  ic_Config ic = SnapshotterConfigPtr (Some cfg) →
  InitFn (Other := Other) DefaultSpec FillUpWithDefaults NewSnapshotter ic
  = Some r →
  let rooted :=
    mkSnapshotterConfig
      (if decide (Root cfg = "") then ic_Root ic else Root cfg)
      (otherFields cfg) in
  (Root cfg ≠ "" → rooted = cfg)
  ∧ match (FillUpWithDefaults rooted).2 with
    | Some _ => pluginCalls r = [CallFillUpWithDefaults rooted]
    | None =>
        pluginCalls r =
        [CallFillUpWithDefaults rooted;
         CallNewSnapshotter (FillUpWithDefaults rooted).1]
    end.
Proof.
  intros Hcfg Hr rooted. unfold InitFn in Hr. rewrite Hcfg in Hr.
  assert ((if decide (Root cfg = "")
           then mkSnapshotterConfig (ic_Root ic) (otherFields cfg)
           else cfg) = rooted) as Hrooted.
  { subst rooted. destruct cfg as [root rest]. simpl.
    by destruct (decide (root = "")). }
  rewrite Hrooted in Hr. split.
  - intros Hne. rewrite <-Hrooted. by rewrite decide_False.
  - destruct (FillUpWithDefaults rooted) as [filled [err|]]; simpl.
    { by injection Hr as <-. }
    destruct (NewSnapshotter filled) as [used [rs [err|]]];
      by injection Hr as <-.
Qed.

(** X14.  The errors of the function, and when each one comes.  A
    configuration of another type, or none, gives an error without
    any call and leaves the configuration untouched; a nil pointer to
    a configuration makes the function panic.  Otherwise the function
    returns: when [FillUpWithDefaults] fails, no snapshotter and an
    error whose text is the same whatever the cause, which is
    dropped, and [NewSnapshotter] is not called; when
    [NewSnapshotter] fails, no snapshotter and its error wrapped, so
    the cause stays in the text; when neither fails, no error and
    what [NewSnapshotter] returned. *)
Theorem plugin_init_errors ic :
  match ic_Config ic with
  | SnapshotterConfigPtr (Some cfg) =>
      let rooted :=
        mkSnapshotterConfig
          (if decide (Root cfg = "") then ic_Root ic else Root cfg)
          (otherFields cfg) in
      ∃ r,
        InitFn (Other := Other) DefaultSpec FillUpWithDefaults
          NewSnapshotter ic = Some r
        ∧ match (FillUpWithDefaults rooted).2 with
          | Some cause =>
              returned r = None
              ∧ (∃ e, failure r = Some e
                      ∧ Error e
                        = "failed to fill up nydus configuration with defaults")
              ∧ pluginCalls r = [CallFillUpWithDefaults rooted]
          | None =>
              let filled := (FillUpWithDefaults rooted).1 in
              pluginCalls r =
              [CallFillUpWithDefaults rooted; CallNewSnapshotter filled]
              ∧ match (NewSnapshotter filled).2.2 with
                | Some cause =>
                    returned r = None
                    ∧ ∃ e, failure r = Some e
                           ∧ Error e
                             = "failed to initialize snapshotter: "
                               +:+ Error cause
                | None =>
                    returned r = (NewSnapshotter filled).2.1
                    ∧ failure r = None
                end
          end
  | SnapshotterConfigPtr None =>
      InitFn (Other := Other) DefaultSpec FillUpWithDefaults
        NewSnapshotter ic = None
  | other =>
      ∃ r,
        InitFn (Other := Other) DefaultSpec FillUpWithDefaults
          NewSnapshotter ic = Some r
        ∧ returned r = None
        ∧ (∃ e, failure r = Some e
                ∧ Error e = "invalid nydus snapshotter configuration")
        ∧ pluginCalls r = []
        ∧ ic_Config (context r) = other
  end.
Proof.
  unfold InitFn. destruct (ic_Config ic) as [[cfg|]|o|]; [|done|..].
  - cbv zeta.
    assert ((if decide (Root cfg = "")
             then mkSnapshotterConfig (ic_Root ic) (otherFields cfg)
             else cfg)
            = mkSnapshotterConfig
                (if decide (Root cfg = "") then ic_Root ic else Root cfg)
                (otherFields cfg)) as ->.
    { destruct cfg as [root rest]. simpl.
      by destruct (decide (root = "")). }
    generalize (mkSnapshotterConfig
                  (if decide (Root cfg = "") then ic_Root ic else Root cfg)
                  (otherFields cfg)).
    intros rooted.
    destruct (FillUpWithDefaults rooted) as [filled [err|]]; simpl.
    { eexists. split; [done|]. simpl. split_and!; by eauto. }
    destruct (NewSnapshotter filled) as [used [rs [err|]]]; simpl.
    + eexists. split; [done|]. simpl. split_and!; by eauto.
    + eexists. by split.
  - eexists. split; [done|]. simpl. split_and!; by eauto.
  - eexists. split; [done|]. simpl. split_and!; by eauto.
Qed.
End PluginFacts.


Lemma plugin_init_adds_default_platform_witness :
  ∃ r,
    exampleInit (exampleContext "/var/lib/nydus"
                   (SnapshotterConfigPtr (Some (mkSnapshotterConfig "/" 0))))
    = Some r
    ∧ failure r ≠ None
    ∧ ic_Platforms (context r) = ["linux/arm64"; "linux/amd64"].
Proof.
  eexists. split; [reflexivity|]. split; [discriminate|].
  refine (proj1 (plugin_init_adds_default_platform "linux/amd64"
                   exampleFillUp exampleNewSnapshotter
                   (exampleContext "/var/lib/nydus"
                      (SnapshotterConfigPtr
                         (Some (mkSnapshotterConfig "/" 0)))) _ eq_refl)).
Defined.

Lemma plugin_init_root_default_witness :
  ∃ r,
    exampleInit (exampleContext "/var/lib/nydus"
                   (SnapshotterConfigPtr (Some (mkSnapshotterConfig "" 0))))
    = Some r
    ∧ returned r = Some "/var/lib/nydus"
    ∧ pluginCalls r =
      [CallFillUpWithDefaults (mkSnapshotterConfig "/var/lib/nydus" 0);
       CallNewSnapshotter (mkSnapshotterConfig "/var/lib/nydus" 1)].
Proof.
  eexists. split; [reflexivity|]. split; [reflexivity|].
  refine (proj2 (plugin_init_root_default "linux/amd64"
                   exampleFillUp exampleNewSnapshotter
                   (exampleContext "/var/lib/nydus"
                      (SnapshotterConfigPtr
                         (Some (mkSnapshotterConfig "" 0))))
                   (mkSnapshotterConfig "" 0) _ eq_refl eq_refl)).
Defined.

Lemma plugin_init_errors_witness :
  ∃ r,
    exampleInit (exampleContext "/var/lib/nydus"
                   (SnapshotterConfigPtr (Some (mkSnapshotterConfig "/" 0))))
    = Some r
    ∧ returned r = None
    ∧ (∃ e, failure r = Some e
            ∧ Error e
              = "failed to fill up nydus configuration with defaults")
    ∧ pluginCalls r = [CallFillUpWithDefaults (mkSnapshotterConfig "/" 0)].
Proof.
  exact (plugin_init_errors "linux/amd64" exampleFillUp exampleNewSnapshotter
           (exampleContext "/var/lib/nydus"
              (SnapshotterConfigPtr (Some (mkSnapshotterConfig "/" 0))))).
Defined.

(** * Pointers to structs *)

Lemma equalsZero_ptr t v : equalsZero (VPtr t (Some v)) = false.
Proof. unfold equalsZero. simpl. by rewrite andb_false_r. Qed.

(** X15.  A pointer to a struct is followed: the filter gives for it
    what it gives for the struct, and a field that holds one gets the
    entry of a field that holds the struct, with one exception.  A
    field tagged [omitempty] that holds the zero struct is omitted,
    and one that holds a pointer to the zero struct is not: it gets
    the map of the zero struct. *)
Theorem filter_follows_pointers (t : GoType)
    (fields : list (StructField * Value)) :
  serializeWithSecretFilter (VPtr t (Some (VStruct fields)))
  = serializeWithSecretFilter (VStruct fields)
  ∧ (∀ fs1 fs2 f,
       hasOmitempty f = false ∨ equalsZero (VStruct fields) = false →
       serializeWithSecretFilter
         (VStruct (fs1 ++ (f, VPtr t (Some (VStruct fields))) :: fs2))
       = serializeWithSecretFilter
           (VStruct (fs1 ++ (f, VStruct fields) :: fs2)))
  ∧ (∀ f r,
       Exported f = true → isSecret f = false → hasOmitempty f = true →
       equalsZero (VStruct fields) = true →
       field_step serializeWithSecretFilter r (f, VStruct fields) = Some r
       ∧ field_step serializeWithSecretFilter r
           (f, VPtr t (Some (VStruct fields)))
         = (serializeWithSecretFilter (VStruct fields)
            ≫= λ m, Some (<[jsonKey f := AMap m]> r))).
Proof.
  split_and!.
  - done.
  - intros fs1 fs2 f Hcond. rewrite !serialize_struct, !fields_loop_app.
    destruct (fields_loop _ _ fs1) as [r|]; simpl; [|done].
    assert (field_step serializeWithSecretFilter r
              (f, VPtr t (Some (VStruct fields)))
            = field_step serializeWithSecretFilter r (f, VStruct fields))
      as ->; [|done].
    rewrite !field_step_spec, equalsZero_ptr, andb_false_r.
    assert (isNilPtr (VPtr t (Some (VStruct fields))) = false) as -> by done.
    assert (isNilPtr (VStruct fields) = false) as -> by done.
    destruct (isSecret f); [done|]. simpl. destruct (Exported f); [|done].
    by destruct Hcond as [-> | ->]; rewrite ?andb_false_r.
  - intros f r Hex Hs Ho Hz. rewrite !field_step_spec, equalsZero_ptr, Hz.
    rewrite Hs, Hex, Ho. simpl.
    split; [done|]. by destruct (fields_loop _ _ fields).
Qed.

Lemma filter_follows_pointers_witness :
  serializeWithSecretFilter
    (VStruct [(jsonField "Backend" "backend",
               VPtr BackendConfig_type
                 (Some (BackendConfig_value scenarioBackend)))])
  = serializeWithSecretFilter
      (VStruct [(jsonField "Backend" "backend",
                 BackendConfig_value scenarioBackend)]).
Proof.
  refine (proj1 (proj2 (filter_follows_pointers BackendConfig_type
                          (match BackendConfig_value scenarioBackend with
                           | VStruct fs => fs | _ => [] end)))
            [] [] (jsonField "Backend" "backend") _).
  by left.
Defined.
